(** * Verification of the trading-cycle core of aster-farm-points

    Shallow embedding of [src/src/utils/position_calculator.py] and of the
    bots in [src/src/bots/].  Python floats are modelled by exact
    rationals [Q]; Python's [round] on a float is round-half-to-even. *)

From Stdlib Require Import QArith Qround Qabs Lqa ZArith Lia List Bool String.
Import ListNotations.
Open Scope Q_scope.

(* ------------------------------------------------------------------ *)
(** ** Python numeric helpers *)

(** [max(a, b)]: Python keeps the first argument unless the second is
    strictly larger. *)
Definition py_max (a b : Q) : Q :=
  match Qcompare a b with Lt => b | _ => a end.

(** [min(a, b)]: the first argument unless the second is strictly smaller. *)
Definition py_min (a b : Q) : Q :=
  match Qcompare b a with Lt => b | _ => a end.

(** [round(x)] with one argument: nearest integer, ties to even. *)
Definition py_round (x : Q) : Z :=
  let f := Qfloor x in
  match Qcompare (x - inject_Z f) (1 # 2) with
  | Lt => f
  | Gt => (f + 1)%Z
  | Eq => if Z.even f then f else (f + 1)%Z
  end.

(** [abs(x)] *)
Definition py_abs (x : Q) : Q := Qabs x.

(* ------------------------------------------------------------------ *)
(** ** [src/core/api_client.py]: [SymbolInfo] *)

Record SymbolInfo := mkSymbolInfo {
  tick_size : Q;
  step_size : Q;
  min_qty : Q;
  min_notional : Q
}.

(* ------------------------------------------------------------------ *)
(** ** [src/utils/position_calculator.py] *)

Record PositionCalculator := mkPositionCalculator {
  liquidity_multiplier : Q;
  balance_percentage : Q
}.

Section Sizing.
Variable calc : PositionCalculator.

Definition divider (single_position : bool) : Q :=
  if single_position then 1 else 2.

Definition max_quantity (price available_balance : Q) (leverage : Z)
    (single_position : bool) : Q :=
  let max_position_value :=
    (available_balance * (balance_percentage calc / 100)) / divider single_position in
  let max_position_value_with_leverage := max_position_value * inject_Z leverage in
  max_position_value_with_leverage / price.

Definition min_required (symbol_info : SymbolInfo) (price : Q) : Q :=
  let min_notional_qty :=
    (min_notional symbol_info * liquidity_multiplier calc) / price in
  py_max min_notional_qty (min_qty symbol_info).

(** The quantity before rounding to the step size. *)
Definition unrounded_quantity (symbol_info : SymbolInfo) (price available_balance : Q)
    (leverage : Z) (single_position : bool) : Q :=
  let mq := max_quantity price available_balance leverage single_position in
  py_max (min_required symbol_info price) (py_min mq mq).

Definition calculate_position_size (symbol_info : SymbolInfo) (price available_balance : Q)
    (leverage : Z) (single_position : bool) : Q :=
  let quantity := unrounded_quantity symbol_info price available_balance leverage single_position in
  inject_Z (py_round (quantity / step_size symbol_info)) * step_size symbol_info.

End Sizing.

Definition default_calculator : PositionCalculator :=
  mkPositionCalculator (6 # 5) 50.

(* ------------------------------------------------------------------ *)
(** ** The exchange as seen by the bots

    Every request to the exchange (and every [random.choice]) is answered
    by a [World]: one function per request kind, indexed by the client
    issuing it and by the running number of the request.  A request that
    fails (transport, HTTP or signing error of [_make_request]) answers
    [Err].  The log records every request with its answer, and the
    messages whose presence depends on the code path. *)

Inductive client := Client1 | Client2.

Inductive exn :=
| ExchangeRequestError (code : nat)
| RuntimeError (msg : string)
| IndexError
| ValueError
| ZeroDivisionError.

Inductive result (A : Type) := Ok (a : A) | Err (e : exn).
Arguments Ok {A} a.
Arguments Err {A} e.

(** An entry of [get_account_balance]. *)
Record BalanceEntry := mkBalanceEntry {
  asset : string;
  availableBalance : Q
}.

(** An entry of [get_position_risk]: a dict whose [positionAmt] parses as
    a float ([Some]) or not ([None], [float] raises [ValueError]), or an
    entry that is not a dict. *)
Inductive PositionRisk :=
| PosDict (positionAmt : option Q) (positionSide : string) (unRealizedProfit : Q)
| PosOther.

(** The messages printed by [close_positions] (["Positions closed"],
    ["Error closing positions"]) and by [DualAccountBot.close_all_positions]
    (["All positions closed on both accounts"]). *)
Inductive message := MsgPositionsClosed | MsgErrorClosing | MsgAllClosed.

Inductive event :=
| EvBalance (c : client) (r : result (list BalanceEntry))
| EvSymbolInfo (c : client) (symbol : string) (r : result (option SymbolInfo))
| EvOrderbook (c : client) (symbol : string) (r : result (list Q * list Q))
| EvPlaceOrder (c : client) (symbol side position_side : string) (quantity : Q)
    (r : result (option Q))
| EvPositionRisk (c : client) (symbol : string) (r : result (list PositionRisk))
| EvChoice (b : bool)
| EvPrint (m : message).

Record World := mkWorld {
  w_balance : client -> nat -> result (list BalanceEntry);
  w_symbol_info : client -> nat -> string -> result (option SymbolInfo);
  w_orderbook : client -> nat -> string -> result (list Q * list Q);
  (** the answer's [avgPrice] field, if present *)
  w_place_order : client -> nat -> string -> string -> string -> Q -> result (option Q);
  w_position_risk : client -> nat -> string -> result (list PositionRisk);
  w_choice : nat -> bool;
  (** in an [asyncio.gather] of two coroutines both waiting on a request,
      whether the request of the first one completes first *)
  w_gather : nat -> bool
}.

Record State := mkState { calls : nat; log : list event }.

Definition init_state (n : nat) : State := mkState n [].

Definition M (A : Type) : Type := State -> result A * State.

Definition ret {A} (a : A) : M A := fun st => (Ok a, st).
Definition raise {A} (e : exn) : M A := fun st => (Err e, st).
Definition bind {A B} (m : M A) (k : A -> M B) : M B :=
  fun st => match m st with
            | (Ok a, st') => k a st'
            | (Err e, st') => (Err e, st')
            end.

(** [try: m  except Exception as e: h e] *)
Definition try_except {A} (m : M A) (h : exn -> M A) : M A :=
  fun st => match m st with
            | (Ok a, st') => (Ok a, st')
            | (Err e, st') => h e st'
            end.

Notation "'let*' x ':=' m 'in' k" := (bind m (fun x => k))
  (at level 200, x pattern, m at level 100, k at level 200, right associativity).

Definition emit (ev : event) (st : State) : State :=
  mkState (S (calls st)) (log st ++ [ev]).

Definition print (m : message) : M unit :=
  fun st => (Ok tt, mkState (calls st) (log st ++ [EvPrint m])).

Section Exchange.
Variable W : World.

Definition request {A} (answer : nat -> result A) (ev : result A -> event) : M A :=
  fun st => let r := answer (calls st) in (r, emit (ev r) st).

Definition get_account_balance (c : client) : M (list BalanceEntry) :=
  request (w_balance W c) (EvBalance c).
Definition get_symbol_info (c : client) (symbol : string) : M (option SymbolInfo) :=
  request (fun n => w_symbol_info W c n symbol) (EvSymbolInfo c symbol).
Definition get_orderbook (c : client) (symbol : string) : M (list Q * list Q) :=
  request (fun n => w_orderbook W c n symbol) (EvOrderbook c symbol).
Definition place_order (c : client) (symbol side position_side : string) (quantity : Q)
    : M (option Q) :=
  request (fun n => w_place_order W c n symbol side position_side quantity)
          (EvPlaceOrder c symbol side position_side quantity).
Definition get_position_risk (c : client) (symbol : string) : M (list PositionRisk) :=
  request (fun n => w_position_risk W c n symbol) (EvPositionRisk c symbol).
(** [random.choice([True, False])] *)
Definition random_choice : M bool :=
  fun st => let b := w_choice W (calls st) in (Ok b, emit (EvChoice b) st).

(** [float(result.get('avgPrice', mid_price))] *)
Definition avg_price (r : option Q) (mid_price : Q) : Q :=
  match r with Some p => p | None => mid_price end.

(** [BaseTradingBot.get_usdt_balance] *)
Fixpoint usdt_of (balances : list BalanceEntry) : Q :=
  match balances with
  | [] => 0
  | b :: rest => if String.eqb (asset b) "USDT" then availableBalance b else usdt_of rest
  end.

Definition get_usdt_balance (c : client) : M Q :=
  let* balances := get_account_balance c in ret (usdt_of balances).

(** [BaseTradingBot.get_market_prices]: [orderbook['bids'][0][0]] raises
    [IndexError] on an empty side. *)
Definition get_market_prices (c : client) (symbol : string) : M (Q * Q * Q) :=
  let* orderbook := get_orderbook c symbol in
  match orderbook with
  | (best_bid :: _, best_ask :: _) => ret (best_bid, best_ask, (best_bid + best_ask) / 2)
  | _ => raise IndexError
  end.

(** [self.calculator.calculate_position_size(...)] called from the bots:
    Python raises [ZeroDivisionError] on [/ price] with a zero price and on
    [/ symbol_info.step_size] with a zero step. *)
Definition size_position (calculator : PositionCalculator) (symbol_info : SymbolInfo)
    (price available_balance : Q) (leverage : Z) (single_position : bool) : M Q :=
  if Qeq_bool price 0 then raise ZeroDivisionError
  else if Qeq_bool (step_size symbol_info) 0 then raise ZeroDivisionError
  else ret (calculate_position_size calculator symbol_info price available_balance
              leverage single_position).

(** The loop body of [BaseTradingBot.close_positions], for one entry. *)
Definition close_one (c : client) (symbol : string) (pos : PositionRisk) : M unit :=
  match pos with
  | PosOther => ret tt
  | PosDict None _ _ => raise ValueError
  | PosDict (Some pos_amt) side _ =>
      if Qeq_bool pos_amt 0 then ret tt
      else
        let close_side := match 0 ?= pos_amt with Lt => "SELL"%string | _ => "BUY"%string end in
        let* _ := place_order c symbol close_side side (Qabs pos_amt) in ret tt
  end.

(** [for pos in positions: ...] *)
Fixpoint close_each (c : client) (symbol : string) (positions : list PositionRisk) : M unit :=
  match positions with
  | [] => ret tt
  | pos :: rest => let* _ := close_one c symbol pos in close_each c symbol rest
  end.

(** [BaseTradingBot.close_positions] *)
Definition close_positions (c : client) (symbol : string) (silent : bool) : M unit :=
  try_except
    (let* positions := get_position_risk c symbol in
     let* _ := close_each c symbol positions in
     if silent then ret tt else print MsgPositionsClosed)
    (fun _ => print MsgErrorClosing).

(** The dict returned by [open_hedged_positions]. *)
Record HedgeResult := mkHedgeResult {
  h_quantity : Q;
  long_price : Q;
  short_price : Q
}.

(** [position_info] dicts built by [open_opposite_positions]. *)
Record PositionInfo := mkPositionInfo {
  pi_quantity : Q;
  pi_entry_price : Q;
  pi_side : string
}.

Variable calculator : PositionCalculator.

(** [BaseTradingBot.open_hedged_positions] for the bot on [Client1]. *)
Definition open_hedged_positions (symbol : string) (leverage : Z) : M HedgeResult :=
  let* usdt_balance := get_usdt_balance Client1 in
  if Qeq_bool usdt_balance 0 then raise (RuntimeError "No USDT balance available")
  else
  let* symbol_info := get_symbol_info Client1 symbol in
  match symbol_info with
  | None => raise (RuntimeError "Failed to get symbol info")
  | Some info =>
  let* (best_bid, best_ask, mid_price) := get_market_prices Client1 symbol in
  let* quantity :=
    size_position calculator info mid_price usdt_balance leverage false in
  try_except
    (let* open_long_first := random_choice in
     if open_long_first then
       let* long_result := place_order Client1 symbol "BUY" "LONG" quantity in
       let long_price := avg_price long_result mid_price in
       let* short_result := place_order Client1 symbol "SELL" "SHORT" quantity in
       let short_price := avg_price short_result mid_price in
       ret (mkHedgeResult quantity long_price short_price)
     else
       let* short_result := place_order Client1 symbol "SELL" "SHORT" quantity in
       let short_price := avg_price short_result mid_price in
       let* long_result := place_order Client1 symbol "BUY" "LONG" quantity in
       let long_price := avg_price long_result mid_price in
       ret (mkHedgeResult quantity long_price short_price))
    (fun e =>
       let* _ := close_positions Client1 symbol true in
       raise e)
  end.

(** A coroutine run by [asyncio.gather]: finished, or suspended at the
    [await] of a request; [resume] completes the request and runs the
    coroutine up to its next [await], giving the coroutine and the state
    at that point. *)
Inductive task := TaskDone | TaskAwait (resume : State -> resumed)
with resumed := Resumed (next : task) (st : State).

(** [close_positions] as a coroutine, from the loop over [positions]: the
    entries that need no order run without suspending. *)
Fixpoint close_task_from (c : client) (symbol : string) (silent : bool)
    (positions : list PositionRisk) (st : State) : resumed :=
  match positions with
  | [] => Resumed TaskDone (if silent then st else snd (print MsgPositionsClosed st))
  | PosOther :: rest => close_task_from c symbol silent rest st
  | PosDict None _ _ :: _ => Resumed TaskDone (snd (print MsgErrorClosing st))
  | PosDict (Some pos_amt) side _ :: rest =>
      if Qeq_bool pos_amt 0 then close_task_from c symbol silent rest st
      else
        let close_side := match 0 ?= pos_amt with Lt => "SELL"%string | _ => "BUY"%string end in
        Resumed (TaskAwait (fun st' =>
           match place_order c symbol close_side side (Qabs pos_amt) st' with
           | (Ok _, st'') => close_task_from c symbol silent rest st''
           | (Err _, st'') => Resumed TaskDone (snd (print MsgErrorClosing st''))
           end)) st
  end.

Definition close_positions_task (c : client) (symbol : string) (silent : bool) : task :=
  TaskAwait (fun st =>
    match get_position_risk c symbol st with
    | (Ok positions, st') => close_task_from c symbol silent positions st'
    | (Err _, st') => Resumed TaskDone (snd (print MsgErrorClosing st'))
    end).

(** A coroutine run alone, to its end. *)
Fixpoint run_task (t : task) (st : State) : State :=
  match t with
  | TaskDone => st
  | TaskAwait resume => let 'Resumed t' st' := resume st in run_task t' st'
  end.

(** [asyncio.gather] of two coroutines that cannot raise: while both wait,
    [w_gather] tells whose request completes first; once one has finished,
    the other runs alone. *)
Fixpoint gather (t1 t2 : task) (st : State) {struct t1} : State :=
  match t1 with
  | TaskDone => run_task t2 st
  | TaskAwait resume1 =>
      (fix gather_second (t2 : task) (st : State) {struct t2} : State :=
         match t2 with
         | TaskDone => run_task (TaskAwait resume1) st
         | TaskAwait resume2 =>
             if w_gather W (calls st) then
               let 'Resumed t1' st' := resume1 st in gather t1' (TaskAwait resume2) st'
             else
               let 'Resumed t2' st' := resume2 st in gather_second t2' st'
         end) t2 st
  end.

(** [DualAccountBot.close_all_positions]: the two silent closes run
    concurrently by [asyncio.gather] (neither can raise), then the final
    message. *)
Definition close_all_positions (symbol : string) : M unit :=
  fun st =>
    let st' := gather (close_positions_task Client1 symbol true)
                      (close_positions_task Client2 symbol true) st in
    print MsgAllClosed st'.

(** One [if sideN == "LONG": ... else: ...] block of
    [open_opposite_positions]. *)
Definition open_leg (c : client) (symbol side : string) (quantity mid_price : Q)
    : M PositionInfo :=
  if String.eqb side "LONG" then
    let* result := place_order c symbol "BUY" "LONG" quantity in
    ret (mkPositionInfo quantity (avg_price result mid_price) "LONG")
  else
    let* result := place_order c symbol "SELL" "SHORT" quantity in
    ret (mkPositionInfo quantity (avg_price result mid_price) "SHORT").

(** [DualAccountBot.open_opposite_positions] *)
Definition open_opposite_positions (symbol : string) (leverage : Z)
    : M (PositionInfo * PositionInfo) :=
  let* balance1 := get_usdt_balance Client1 in
  let* balance2 := get_usdt_balance Client2 in
  let min_balance := py_min balance1 balance2 in
  let* symbol_info := get_symbol_info Client1 symbol in
  match symbol_info with
  | None => raise (RuntimeError "Failed to get symbol info")
  | Some info =>
  let* (best_bid, best_ask, mid_price) := get_market_prices Client1 symbol in
  let* quantity :=
    size_position calculator info mid_price min_balance leverage true in
  let* long_on_first := random_choice in
  let '(side1, side2) :=
    if long_on_first then ("LONG"%string, "SHORT"%string)
    else ("SHORT"%string, "LONG"%string) in
  try_except
    (let* position1_info := open_leg Client1 symbol side1 quantity mid_price in
     let* position2_info := open_leg Client2 symbol side2 quantity mid_price in
     (* [margin_per_position = (quantity * mid_price) / leverage], printed *)
     if Z.eqb leverage 0 then raise ZeroDivisionError
     else ret (position1_info, position2_info))
    (fun e =>
       let* _ := close_all_positions symbol in
       raise e)
  end.

End Exchange.

(** A failed request in the log. *)
Definition ev_failed (ev : event) : bool :=
  match ev with
  | EvBalance _ (Err _) | EvSymbolInfo _ _ (Err _) | EvOrderbook _ _ (Err _)
  | EvPlaceOrder _ _ _ _ _ (Err _) | EvPositionRisk _ _ (Err _) => true
  | _ => false
  end.

(** Split a log at its first failed request: the events before it, the
    failed request, the events after it. *)
Fixpoint first_failure (l : list event) : option (list event * event * list event) :=
  match l with
  | [] => None
  | ev :: rest =>
      if ev_failed ev then Some ([], ev, rest)
      else match first_failure rest with
           | Some (pre, x, post) => Some (ev :: pre, x, post)
           | None => None
           end
  end.

(* ------------------------------------------------------------------ *)
(** ** The cycle loops: [run_volume_trading_cycle], [run_dual_trading_cycle]

    The result of the I/O inside the [try] block of one cycle is an
    input: either some statement of the block raised, or the block ran to
    the point where the balances after the close were read. *)

Record VolumeState := mkVolumeState {
  v_total_pnl : Q;
  v_cycles_completed : nat
}.

Inductive volume_outcome :=
| VolumeRaised
| VolumeSettled (balance_before balance_after : Q).

(** [VolumeTradingBot.run_volume_trading_cycle]: [true] means continue. *)
Definition run_volume_trading_cycle (max_loss_usdt : Q) (st : VolumeState)
    (o : volume_outcome) : bool * VolumeState :=
  if Qle_bool max_loss_usdt (py_abs (v_total_pnl st)) then (false, st)
  else
    match o with
    | VolumeRaised => (false, st)
    | VolumeSettled balance_before balance_after =>
        let cycle_pnl := balance_after - balance_before in
        let st' := mkVolumeState (v_total_pnl st + cycle_pnl) (S (v_cycles_completed st)) in
        if Qle_bool max_loss_usdt (py_abs (v_total_pnl st')) then (false, st')
        else (true, st')
    end.

(** [while True: if not run_volume_trading_cycle(...): break], over the
    outcomes of the successive cycles; [true] in the result means the loop
    has stopped. *)
Fixpoint start_volume_trading (max_loss_usdt : Q) (st : VolumeState)
    (outcomes : list volume_outcome) : VolumeState * bool :=
  match outcomes with
  | [] => (st, false)
  | o :: rest =>
      let '(should_continue, st') := run_volume_trading_cycle max_loss_usdt st o in
      if should_continue then start_volume_trading max_loss_usdt st' rest
      else (st', true)
  end.

Record DualState := mkDualState {
  d_total_pnl : Q;
  d_cycles_completed : nat;
  account1_pnl : Q;
  account2_pnl : Q
}.

Inductive dual_outcome :=
| DualRaised
| DualSettled (balance1_before balance2_before balance1_after balance2_after : Q).

(** [DualAccountBot.run_dual_trading_cycle]: [true] means continue. *)
Definition run_dual_trading_cycle (max_loss_usdt : Q) (st : DualState)
    (o : dual_outcome) : bool * DualState :=
  if Qle_bool max_loss_usdt (py_abs (d_total_pnl st)) then (false, st)
  else
    match o with
    | DualRaised => (false, st)
    | DualSettled b1_before b2_before b1_after b2_after =>
        let account1_cycle_pnl := b1_after - b1_before in
        let account2_cycle_pnl := b2_after - b2_before in
        let cycle_pnl := account1_cycle_pnl + account2_cycle_pnl in
        let st' := mkDualState (d_total_pnl st + cycle_pnl) (S (d_cycles_completed st))
                     (account1_pnl st + account1_cycle_pnl)
                     (account2_pnl st + account2_cycle_pnl) in
        if Qle_bool max_loss_usdt (py_abs (d_total_pnl st')) then (false, st')
        else (true, st')
    end.

Fixpoint start_dual_trading (max_loss_usdt : Q) (st : DualState)
    (outcomes : list dual_outcome) : DualState * bool :=
  match outcomes with
  | [] => (st, false)
  | o :: rest =>
      let '(should_continue, st') := run_dual_trading_cycle max_loss_usdt st o in
      if should_continue then start_dual_trading max_loss_usdt st' rest
      else (st', true)
  end.

(* ------------------------------------------------------------------ *)
(** ** [DualAccountBot.monitor_positions]

    Each iteration of [while True] reads the clock and the active
    positions of both accounts ([get_position_details]); a [Poll] is what
    one iteration reads.  The hold time drawn by [random.randint] is an
    input. *)

(** A dict of [BaseTradingBot.get_position_details]. *)
Record PositionDetail := mkPositionDetail {
  pd_side : string;
  pd_amount : Q;
  pd_entry_price : Q;
  pd_unrealized_pnl : Q;
  pd_margin : Q
}.

Record Poll := mkPoll {
  elapsed : Q;
  positions1 : list PositionDetail;
  positions2 : list PositionDetail
}.

(** [DualAccountBot.calculate_position_deviation] *)
Definition calculate_position_deviation (position : PositionDetail) (initial_margin : Q) : Q :=
  if Qeq_bool initial_margin 0 then 0
  else py_abs (pd_unrealized_pnl position / initial_margin) * 100.

(** [for pos in positionsN: if pos['side'] == positionN_info['side']:
    ... if deviationN >= max: return True] *)
Definition deviation_exceeded (max_position_deviation_percent : Q) (side : string)
    (margin : Q) (positions : list PositionDetail) : bool :=
  existsb (fun pos => String.eqb (pd_side pos) side &&
             Qle_bool max_position_deviation_percent (calculate_position_deviation pos margin))
          positions.

Definition sum_pnl (positions : list PositionDetail) : Q :=
  fold_left (fun acc p => acc + pd_unrealized_pnl p) positions 0.

Definition is_empty {A} (l : list A) : bool :=
  match l with [] => true | _ => false end.

(** One iteration of the loop: [Some b] is [return b], [None] is
    [await asyncio.sleep(check_interval)] and the next iteration. *)
Definition monitor_iteration (max_position_deviation_percent : Q) (hold_time : Z)
    (position1_info position2_info : PositionInfo) (position1_margin position2_margin : Q)
    (p : Poll) : option bool :=
  if is_empty (positions1 p) || is_empty (positions2 p) then Some true
  else if deviation_exceeded max_position_deviation_percent (pi_side position1_info)
            position1_margin (positions1 p) then Some true
  else if deviation_exceeded max_position_deviation_percent (pi_side position2_info)
            position2_margin (positions2 p) then Some true
  else
    let combined_pnl := sum_pnl (positions1 p) + sum_pnl (positions2 p) in
    match 0 ?= combined_pnl with
    | Lt => Some true
    | _ => if Qle_bool (inject_Z hold_time) (elapsed p) then Some true else None
    end.

(** The [while True] loop over the successive polls: the returned value and
    the number of iterations run, or [None] if it is still running when the
    polls run out. *)
Fixpoint monitor_loop (max_position_deviation_percent : Q) (hold_time : Z)
    (position1_info position2_info : PositionInfo) (position1_margin position2_margin : Q)
    (polls : list Poll) : option (bool * nat) :=
  match polls with
  | [] => None
  | p :: rest =>
      match monitor_iteration max_position_deviation_percent hold_time
              position1_info position2_info position1_margin position2_margin p with
      | Some b => Some (b, 1%nat)
      | None =>
          match monitor_loop max_position_deviation_percent hold_time
                  position1_info position2_info position1_margin position2_margin rest with
          | Some (b, k) => Some (b, S k)
          | None => None
          end
      end
  end.

(** [initial margin = quantity * entry_price / leverage] *)
Definition position_margin (info : PositionInfo) (leverage : Z) : Q :=
  pi_quantity info * pi_entry_price info / inject_Z leverage.

(** [DualAccountBot.monitor_positions] with the drawn [hold_time]. *)
Definition monitor_positions (max_position_deviation_percent : Q) (hold_time : Z)
    (position1_info position2_info : PositionInfo) (leverage : Z)
    (polls : list Poll) : option (bool * nat) :=
  let position1_margin := position_margin position1_info leverage in
  let position2_margin := position_margin position2_info leverage in
  monitor_loop max_position_deviation_percent hold_time position1_info position2_info
    position1_margin position2_margin polls.

(* ------------------------------------------------------------------ *)
(** ** Auxiliary definitions and concrete inputs *)

(** The input of the sizing counterexample: BTC-like rules, a price of 5000
    and a balance of 10, sized by the default calculator (multiplier 1.2,
    50 % of the balance) for the two-leg hedge. *)
Definition cx_rules : SymbolInfo := mkSymbolInfo (1 # 100) (1 # 1000) (1 # 1000) 5.

(** A computation that only appends to the log, and never the
    "positions closed" message. *)
Definition quiet {A} (m : M A) : Prop :=
  forall st, exists rest,
    log (snd (m st)) = log st ++ rest /\ ~ In (EvPrint MsgPositionsClosed) rest.

(** A world in which every request to the exchange fails. *)
Definition failing_world : World :=
  mkWorld (fun _ _ => Err (ExchangeRequestError 500))
          (fun _ _ _ => Err (ExchangeRequestError 500))
          (fun _ _ _ => Err (ExchangeRequestError 500))
          (fun _ _ _ _ _ _ => Err (ExchangeRequestError 500))
          (fun _ _ _ => Err (ExchangeRequestError 500))
          (fun _ => true) (fun _ => true).

Definition hedge_rules : SymbolInfo := mkSymbolInfo (1 # 100) (1 # 1000) (1 # 1000) 5.

(** A world for the hedge: 1000 USDT on the first account and 300 on the
    second, rules of the worked example, a book at 99/101, long first;
    the second order of the run (request number 5) fails; in a
    [gather], the request of the first coroutine completes first at even
    request numbers. *)
Definition hedge_world : World :=
  mkWorld (fun c _ => Ok [mkBalanceEntry "USDT" (match c with Client1 => 1000 | Client2 => 300 end)])
          (fun _ _ _ => Ok (Some hedge_rules))
          (fun _ _ _ => Ok ([99], [101]))
          (fun _ k _ _ _ _ => if Nat.eqb k 5 then Err (ExchangeRequestError 400) else Ok None)
          (fun _ _ _ => Ok [PosDict (Some 25) "LONG" 0])
          (fun _ => true) Nat.even.

(** The quantity and the events of the hedge in [hedge_world]: mid price
    [(99 + 101) / 2], balance 1000. *)
Definition hedge_quantity : Q :=
  calculate_position_size default_calculator hedge_rules ((99 + 101) / 2) 1000 10 false.

Definition hedge_events_before : list event :=
  [EvBalance Client1 (Ok [mkBalanceEntry "USDT" 1000]);
   EvSymbolInfo Client1 "BTCUSDT" (Ok (Some hedge_rules));
   EvOrderbook Client1 "BTCUSDT" (Ok ([99], [101]));
   EvChoice true;
   EvPlaceOrder Client1 "BTCUSDT" "BUY" "LONG" hedge_quantity (Ok None)].

Definition hedge_events_after : list event :=
  [EvPositionRisk Client1 "BTCUSDT" (Ok [PosDict (Some 25) "LONG" 0]);
   EvPlaceOrder Client1 "BTCUSDT" "SELL" "LONG" (Qabs 25) (Ok None)].

(** [hedge_world] without failing orders. *)
Definition dual_world : World :=
  mkWorld (w_balance hedge_world) (w_symbol_info hedge_world) (w_orderbook hedge_world)
          (fun _ _ _ _ _ _ => Ok None) (w_position_risk hedge_world) (w_choice hedge_world)
          (w_gather hedge_world).

(** Replacing the live entry price and margin of every polled position. *)
Definition reprice_detail (f g : PositionDetail -> Q) (d : PositionDetail) : PositionDetail :=
  mkPositionDetail (pd_side d) (pd_amount d) (f d) (pd_unrealized_pnl d) (g d).

Definition reprice_poll (f g : PositionDetail -> Q) (p : Poll) : Poll :=
  mkPoll (elapsed p) (map (reprice_detail f g) (positions1 p))
         (map (reprice_detail f g) (positions2 p)).

(** The example of the spec: margin [1 * 1000 / 10 = 100], unrealized PnL
    [-25] on account 1, a cap of 20 %. *)
Definition dev_info1 : PositionInfo := mkPositionInfo 1 1000 "LONG".
Definition dev_info2 : PositionInfo := mkPositionInfo 1 1000 "SHORT".
Definition dev_pos1 : PositionDetail := mkPositionDetail "LONG" 1 1000 (-25) 100.
Definition dev_poll : Poll :=
  mkPoll 5 [dev_pos1] [mkPositionDetail "SHORT" (-1) 1000 24 100].

(** A poll at 300 s where nothing else fires: flat PnL on both accounts. *)
Definition quiet_poll (t : Q) : Poll :=
  mkPoll t [mkPositionDetail "LONG" 1 1000 0 100] [mkPositionDetail "SHORT" (-1) 1000 0 100].

(* ------------------------------------------------------------------ *)
(** ** More of [BaseTradingBot] and [DualAccountBot] *)

Section Exchange2.
Variable W : World.
Variable calculator : PositionCalculator.

(** [BaseTradingBot.open_single_position] for the bot on [Client1]. *)
Definition open_single_position (symbol side : string) (leverage : Z) : M PositionInfo :=
  let* usdt_balance := get_usdt_balance W Client1 in
  if Qeq_bool usdt_balance 0 then raise (RuntimeError "No USDT balance available")
  else
  let* symbol_info := get_symbol_info W Client1 symbol in
  match symbol_info with
  | None => raise (RuntimeError "Failed to get symbol info")
  | Some info =>
  let* (best_bid, best_ask, mid_price) := get_market_prices W Client1 symbol in
  let* quantity :=
    size_position calculator info mid_price usdt_balance leverage false in
  try_except
    (if String.eqb side "LONG" then
       let* result := place_order W Client1 symbol "BUY" "LONG" quantity in
       let entry_price := avg_price result mid_price in
       ret (mkPositionInfo quantity entry_price side)
     else
       let* result := place_order W Client1 symbol "SELL" "SHORT" quantity in
       let entry_price := avg_price result mid_price in
       ret (mkPositionInfo quantity entry_price side))
    (fun e =>
       let* _ := close_positions W Client1 symbol true in
       raise e)
  end.

End Exchange2.

(** The orders placed on the exchange, in the order of the log. *)
Definition order_of (ev : event) : list (client * string * string * string * Q) :=
  match ev with
  | EvPlaceOrder c symbol side position_side quantity _ =>
      [(c, symbol, side, position_side, quantity)]
  | _ => []
  end.

Definition placed_orders (l : list event) : list (client * string * string * string * Q) :=
  flat_map order_of l.

(** The orders [close_positions] is to place for the entries [positions]:
    one per dict with a non-zero [positionAmt], on the opposite side and
    with the same position side, up to the first entry whose
    [positionAmt] does not parse. *)
Fixpoint closing_orders (c : client) (symbol : string) (positions : list PositionRisk)
    : list (client * string * string * string * Q) :=
  match positions with
  | [] => []
  | PosOther :: rest => closing_orders c symbol rest
  | PosDict None _ _ :: _ => []
  | PosDict (Some pos_amt) side _ :: rest =>
      if Qeq_bool pos_amt 0 then closing_orders c symbol rest
      else (c, symbol, match 0 ?= pos_amt with Lt => "SELL"%string | _ => "BUY"%string end, side,
            Qabs pos_amt) :: closing_orders c symbol rest
  end.

(* ------------------------------------------------------------------ *)
(** ** [get_position_details] and [check_positions_status] on the answer of
    [get_position_risk]

    A dict of the answer with the [float] of each field it reads: [None]
    when [float] raises [ValueError] on it; a missing key is read as its
    default [0]. *)

Record PositionRiskEntry := mkPositionRiskEntry {
  e_positionAmt : option Q;
  e_positionSide : string;
  e_entryPrice : option Q;
  e_unRealizedProfit : option Q;
  e_isolatedWallet : option Q;
  e_initialMargin : option Q
}.

Inductive RiskItem := RiskDict (d : PositionRiskEntry) | RiskOther.

(** [float(...)] *)
Definition float_of (x : option Q) : result Q :=
  match x with Some q => Ok q | None => Err ValueError end.

(** [float(pos.get('isolatedWallet', 0)) or float(pos.get('initialMargin', 0))]:
    a zero wallet is falsy. *)
Definition margin_of (d : PositionRiskEntry) : result Q :=
  match float_of (e_isolatedWallet d) with
  | Err e => Err e
  | Ok wallet => if Qeq_bool wallet 0 then float_of (e_initialMargin d) else Ok wallet
  end.

(** The dict appended by [get_position_details] for an active entry. *)
Definition detail_of (d : PositionRiskEntry) : result PositionDetail :=
  match float_of (e_positionAmt d) with
  | Err e => Err e
  | Ok amount =>
  match float_of (e_entryPrice d) with
  | Err e => Err e
  | Ok entry_price =>
  match float_of (e_unRealizedProfit d) with
  | Err e => Err e
  | Ok unrealized_pnl =>
  match margin_of d with
  | Err e => Err e
  | Ok margin => Ok (mkPositionDetail (e_positionSide d) amount entry_price unrealized_pnl margin)
  end end end end.

(** [BaseTradingBot.get_position_details] after the request. *)
Fixpoint get_position_details (positions : list RiskItem) : result (list PositionDetail) :=
  match positions with
  | [] => Ok []
  | RiskOther :: rest => get_position_details rest
  | RiskDict d :: rest =>
      match float_of (e_positionAmt d) with
      | Err e => Err e
      | Ok amt =>
          if Qeq_bool amt 0 then get_position_details rest
          else match detail_of d with
               | Err e => Err e
               | Ok pd =>
                   match get_position_details rest with
                   | Err e => Err e
                   | Ok active_positions => Ok (pd :: active_positions)
                   end
               end
      end
  end.

(** The loop of [BaseTradingBot.check_positions_status] from [total_pnl]. *)
Fixpoint status_loop (positions : list RiskItem) (total_pnl : Q) : result Q :=
  match positions with
  | [] => Ok total_pnl
  | RiskOther :: rest => status_loop rest total_pnl
  | RiskDict d :: rest =>
      match float_of (e_positionAmt d) with
      | Err e => Err e
      | Ok amt =>
          if Qeq_bool amt 0 then status_loop rest total_pnl
          else match float_of (e_unRealizedProfit d) with
               | Err e => Err e
               | Ok pnl => status_loop rest (total_pnl + pnl)
               end
      end
  end.

(** [BaseTradingBot.check_positions_status] after the request: the
    ["total_pnl"] of the returned dict. *)
Definition check_positions_status (positions : list RiskItem) : result Q :=
  status_loop positions 0.

(** An entry [close_positions] and [get_position_details] both skip: not a
    dict, or a dict with a zero [positionAmt]. *)
Definition inactive (item : RiskItem) : Prop :=
  match item with
  | RiskOther => True
  | RiskDict d => match e_positionAmt d with Some amt => amt == 0 | None => False end
  end.

(** The [positionAmt] of the dicts with a non-zero one. *)
Fixpoint active_amounts (positions : list RiskItem) : list Q :=
  match positions with
  | [] => []
  | RiskOther :: rest => active_amounts rest
  | RiskDict d :: rest =>
      match e_positionAmt d with
      | Some amt => if Qeq_bool amt 0 then active_amounts rest else amt :: active_amounts rest
      | None => active_amounts rest
      end
  end.

(* ------------------------------------------------------------------ *)
(** ** The waiting loop of [VolumeTradingBot.run_volume_trading_cycle]

    Each iteration reads the elapsed time and the [total_pnl] of
    [check_positions_status]; [Some k] is [break] at iteration [k], [None]
    that the loop still runs when the polls run out. *)

Fixpoint volume_wait_loop (close_time : Z) (polls : list (Q * Q)) : option nat :=
  match polls with
  | [] => None
  | (elapsed, current_pnl) :: rest =>
      match 0 ?= current_pnl with
      | Lt => Some 1%nat
      | _ =>
          if Qle_bool (inject_Z close_time) elapsed then Some 1%nat
          else match volume_wait_loop close_time rest with
               | Some k => Some (S k)
               | None => None
               end
      end
  end.

(** The condition under which an iteration breaks. *)
Definition volume_wait_breaks (close_time : Z) (poll : Q * Q) : Prop :=
  0 < snd poll \/ inject_Z close_time <= fst poll.

(** The PnL a cycle adds to the total: nothing when it raised. *)
Definition volume_cycle_pnl (o : volume_outcome) : Q :=
  match o with
  | VolumeRaised => 0
  | VolumeSettled balance_before balance_after => balance_after - balance_before
  end.

Definition volume_settled (o : volume_outcome) : bool :=
  match o with VolumeRaised => false | VolumeSettled _ _ => true end.

(* ------------------------------------------------------------------ *)
(** ** [BaseTradingBot.setup_trading_environment]

    The three signed requests it may issue, with their answers; the
    [asyncio.sleep] is not a request. *)

Inductive setup_request :=
| CheckHedgeMode
| SetHedgeMode (enabled : bool)
| SetLeverage (symbol : string) (leverage : Z).

Record SetupAnswers := mkSetupAnswers {
  (** [result.get('dualSidePosition', False)] *)
  a_check_hedge_mode : result bool;
  a_set_hedge_mode : result unit;
  a_set_leverage : result unit
}.

Definition setup_trading_environment (a : SetupAnswers) (symbol : string) (leverage : Z)
    (hedge_mode : bool) : result unit * list setup_request :=
  let '(r, issued) :=
    if hedge_mode then
      match a_check_hedge_mode a with
      | Err e => (Err e, [CheckHedgeMode])
      | Ok current_hedge_mode =>
          if negb current_hedge_mode then
            (a_set_hedge_mode a, [CheckHedgeMode; SetHedgeMode true])
          else (Ok tt, [CheckHedgeMode])
      end
    else (Ok tt, []) in
  match r with
  | Err e => (Err e, issued)
  | Ok _ => (a_set_leverage a, issued ++ [SetLeverage symbol leverage])
  end.

(* ------------------------------------------------------------------ *)
(** ** [AsterApiClient.get_symbol_info] on the answer of [get_exchange_info]

    A JSON value as the code reads it: [JNum q] is a value [float] turns
    into [q] (the exchange sends numbers as numeric strings), [JStr s] a
    string [float] rejects (a symbol or filter name).  A dict is an
    association list, read at the first binding of a key.  A missing key
    read by [d[k]] raises [KeyError], a rejected [float] [ValueError]. *)

Inductive jvalue := JNum (q : Q) | JStr (s : string).

Definition jdict := list (string * jvalue).

Fixpoint jget (k : string) (d : jdict) : option jvalue :=
  match d with
  | [] => None
  | (k', v) :: rest => if String.eqb k k' then Some v else jget k rest
  end.

Inductive parsed (A : Type) := Parsed (a : A) | PKeyError (key : string) | PValueError.
Arguments Parsed {A} a.
Arguments PKeyError {A} key.
Arguments PValueError {A}.

Definition pbind {A B} (m : parsed A) (k : A -> parsed B) : parsed B :=
  match m with
  | Parsed a => k a
  | PKeyError key => PKeyError key
  | PValueError => PValueError
  end.

(** [d[k]] *)
Definition jindex (d : jdict) (k : string) : parsed jvalue :=
  match jget k d with Some v => Parsed v | None => PKeyError k end.

(** [float(v)] *)
Definition jfloat (v : jvalue) : parsed Q :=
  match v with JNum q => Parsed q | JStr _ => PValueError end.

(** [v == s] for a string [s] *)
Definition jis (v : jvalue) (s : string) : bool :=
  match v with JStr s' => String.eqb s' s | JNum _ => false end.

(** An entry of [exchange_info['symbols']]: its ['symbol'] and ['filters']
    values, [None] when the key is missing. *)
Record SymbolEntry := mkSymbolEntry {
  s_symbol : option jvalue;
  s_filters : option (list jdict)
}.

(** The [filters] dict being filled. *)
Record Filters := mkFilters {
  f_tick_size : option Q;
  f_step_size : option Q;
  f_min_qty : option Q;
  f_min_notional : option Q
}.

Definition no_filters : Filters := mkFilters None None None None.

(** The body of [for f in s['filters']]. *)
Definition add_filter (filters : Filters) (f : jdict) : parsed Filters :=
  pbind (jindex f "filterType") (fun filter_type =>
  if jis filter_type "PRICE_FILTER" then
    pbind (pbind (jindex f "tickSize") jfloat) (fun tick =>
    Parsed (mkFilters (Some tick) (f_step_size filters) (f_min_qty filters)
                      (f_min_notional filters)))
  else if jis filter_type "LOT_SIZE" then
    pbind (pbind (jindex f "stepSize") jfloat) (fun step =>
    pbind (pbind (jindex f "minQty") jfloat) (fun mq =>
    Parsed (mkFilters (f_tick_size filters) (Some step) (Some mq) (f_min_notional filters))))
  else if jis filter_type "MIN_NOTIONAL" then
    pbind (pbind (jindex f "notional") jfloat) (fun notional =>
    Parsed (mkFilters (f_tick_size filters) (f_step_size filters) (f_min_qty filters)
                      (Some notional)))
  else Parsed filters).

Fixpoint collect_filters (fs : list jdict) (filters : Filters) : parsed Filters :=
  match fs with
  | [] => Parsed filters
  | f :: rest => pbind (add_filter filters f) (collect_filters rest)
  end.

(** [if all(k in filters for k in [...]): return SymbolInfo(...)], keyword arguments from [filters] *)
Definition filters_info (filters : Filters) : option SymbolInfo :=
  match f_tick_size filters, f_step_size filters, f_min_qty filters, f_min_notional filters with
  | Some t, Some s, Some m, Some n => Some (mkSymbolInfo t s m n)
  | _, _, _, _ => None
  end.

(** The loop [for s in exchange_info.get('symbols', [])]. *)
Fixpoint find_symbol_info (symbol : string) (symbols : list SymbolEntry)
    : parsed (option SymbolInfo) :=
  match symbols with
  | [] => Parsed None
  | s :: rest =>
      match s_symbol s with
      | None => PKeyError "symbol"
      | Some name =>
          if jis name symbol then
            match s_filters s with
            | None => PKeyError "filters"
            | Some fs =>
                pbind (collect_filters fs no_filters) (fun filters =>
                match filters_info filters with
                | Some info => Parsed (Some info)
                | None => find_symbol_info symbol rest
                end)
            end
          else find_symbol_info symbol rest
      end
  end.

(** [AsterApiClient.get_symbol_info] on the value of
    [exchange_info.get('symbols')] ([None] when the key is missing). *)
Definition get_symbol_info_of (symbols : option (list SymbolEntry)) (symbol : string)
    : parsed (option SymbolInfo) :=
  find_symbol_info symbol (match symbols with Some l => l | None => [] end).

(** The value of [key] in the last filter of type [filter_type], among
    filters whose reads all succeed. *)
Fixpoint last_filter_value (filter_type key : string) (fs : list jdict) : option Q :=
  match fs with
  | [] => None
  | f :: rest =>
      match last_filter_value filter_type key rest with
      | Some v => Some v
      | None =>
          match jget "filterType" f, jget key f with
          | Some ty, Some (JNum v) => if jis ty filter_type then Some v else None
          | _, _ => None
          end
      end
  end.

(** A later filter's value overrides the one already stored. *)
Definition keep_last (new old : option Q) : option Q :=
  match new with Some v => Some v | None => old end.

(** [hedge_world] in which every order is rejected. *)
Definition rejecting_world : World :=
  mkWorld (w_balance hedge_world) (w_symbol_info hedge_world) (w_orderbook hedge_world)
          (fun _ _ _ _ _ _ => Err (ExchangeRequestError 400))
          (w_position_risk hedge_world) (w_choice hedge_world)
          (w_gather hedge_world).

Scheme task_mut := Induction for task Sort Prop
with resumed_mut := Induction for resumed Sort Prop.

Definition resumed_next (r : resumed) : task := let 'Resumed t _ := r in t.
Definition resumed_state (r : resumed) : State := let 'Resumed _ st := r in st.

(** Every resumption of the coroutine, to its end, only appends events
    satisfying [P] to the log. *)
Fixpoint task_appends (P : event -> Prop) (t : task) : Prop :=
  match t with
  | TaskDone => True
  | TaskAwait resume =>
      forall st, exists rest,
        log (resumed_state (resume st)) = log st ++ rest /\ Forall P rest /\
        task_appends P (resumed_next (resume st))
  end.

(** The coroutine is waiting, and its next resumption appends an event
    satisfying [Q] first. *)
Definition first_appends (Q : event -> Prop) (t : task) : Prop :=
  match t with
  | TaskDone => False
  | TaskAwait resume =>
      forall st, exists ev rest, log (resumed_state (resume st)) = log st ++ ev :: rest /\ Q ev
  end.

(** The event is not the success message of [close_positions]. *)
Definition not_success (ev : event) : Prop := ev <> EvPrint MsgPositionsClosed.

(** An answer of [get_position_risk]: an open long, a non-dict entry, a
    closed short with unreadable fields, and an open short. *)
Definition risk_example : list RiskItem :=
  [RiskDict (mkPositionRiskEntry (Some 25) "LONG" (Some 100) (Some 3) (Some 0) (Some 250));
   RiskOther;
   RiskDict (mkPositionRiskEntry (Some 0) "SHORT" None None None None);
   RiskDict (mkPositionRiskEntry (Some (-4)) "SHORT" (Some 101) (Some (-1)) (Some 40) (Some 40))].

(** The ['symbols'] of an exchange info: an unrelated symbol, an entry for
    BTCUSDT without a price filter, then a complete one with two price
    filters. *)
Definition symbols_example : list SymbolEntry :=
  [mkSymbolEntry (Some (JStr "ETHUSDT"))
     (Some [[("filterType"%string, JStr "PRICE_FILTER"); ("tickSize"%string, JNum (1 # 10))]]);
   mkSymbolEntry (Some (JStr "BTCUSDT"))
     (Some [[("filterType"%string, JStr "LOT_SIZE"); ("stepSize"%string, JNum (1 # 1000));
             ("minQty"%string, JNum (1 # 1000))]]);
   mkSymbolEntry (Some (JStr "BTCUSDT"))
     (Some [[("filterType"%string, JStr "PRICE_FILTER"); ("tickSize"%string, JNum (1 # 10))];
            [("filterType"%string, JStr "LOT_SIZE"); ("stepSize"%string, JNum (1 # 1000));
             ("minQty"%string, JNum (1 # 1000))];
            [("filterType"%string, JStr "MIN_NOTIONAL"); ("notional"%string, JNum 5)];
            [("filterType"%string, JStr "MARKET_LOT_SIZE"); ("stepSize"%string, JNum 1)];
            [("filterType"%string, JStr "PRICE_FILTER"); ("tickSize"%string, JNum (1 # 100))]])].

(* ------------------------------------------------------------------ *)
(** ** Rounding and sizing lemmas *)

Example round_ex1 : py_round (5 # 2) = 2%Z. Proof. reflexivity. Qed.
Example round_ex2 : py_round (7 # 2) = 4%Z. Proof. reflexivity. Qed.
Example round_ex3 : py_round (6 # 5) = 1%Z. Proof. reflexivity. Qed.
Example round_ex4 : py_round (-5 # 2) = (-2)%Z. Proof. reflexivity. Qed.

Lemma inject_Z_succ (z : Z) : inject_Z (z + 1) == inject_Z z + 1.
Proof. rewrite inject_Z_plus. reflexivity. Qed.

Lemma py_round_bounds (x : Q) :
  x - (1 # 2) <= inject_Z (py_round x) /\ inject_Z (py_round x) <= x + (1 # 2).
Proof.
  unfold py_round.
  pose proof (Qfloor_le x) as H1. pose proof (Qlt_floor x) as H2.
  set (f := Qfloor x) in *. rewrite inject_Z_succ in H2.
  destruct (Qcompare_spec (x - inject_Z f) (1 # 2)) as [E|E|E].
  - destruct (Z.even f); [|rewrite inject_Z_succ]; split; lra.
  - split; lra.
  - rewrite inject_Z_succ. split; lra.
Qed.

Lemma py_round_ge_int (m : Z) (x : Q) :
  inject_Z m <= x -> (m <= py_round x)%Z.
Proof.
  intro H. apply Qfloor_resp_le in H. rewrite Qfloor_Z in H.
  unfold py_round.
  destruct (_ ?= _); [destruct (Z.even _)|..]; lia.
Qed.

Lemma py_max_ge_l (a b : Q) : a <= py_max a b.
Proof.
  unfold py_max. destruct (Qcompare_spec a b) as [E|E|E]; lra.
Qed.

Lemma py_max_ge_r (a b : Q) : b <= py_max a b.
Proof.
  unfold py_max. destruct (Qcompare_spec a b) as [E|E|E]; lra.
Qed.

Lemma py_max_eq_r (a b : Q) : a <= b -> py_max a b == b.
Proof.
  intro H. unfold py_max. destruct (Qcompare_spec a b) as [E|E|E]; lra.
Qed.

Lemma py_min_same (a : Q) : py_min a a = a.
Proof.
  unfold py_min. destruct (a ?= a); reflexivity.
Qed.

(** Scaling the rounding error by a positive step. *)
Lemma round_times_step_near (t s : Q) :
  0 < s -> Qabs (inject_Z (py_round (t / s)) * s - t) <= s / 2.
Proof.
  intro Hs.
  destruct (py_round_bounds (t / s)) as [L U].
  set (K := inject_Z (py_round (t / s))) in *.
  assert (Ht : t == (t / s) * s) by (field; lra).
  set (u := t / s) in *.
  apply Qabs_Qle_condition. split.
  - assert (u * s - (1 # 2) * s <= K * s) by
      (setoid_replace (u * s - (1 # 2) * s) with ((u - (1 # 2)) * s) by ring;
       apply Qmult_le_compat_r; lra).
    setoid_replace (s / 2) with ((1 # 2) * s) by field. lra.
  - assert (K * s <= u * s + (1 # 2) * s) by
      (setoid_replace (u * s + (1 # 2) * s) with ((u + (1 # 2)) * s) by ring;
       apply Qmult_le_compat_r; lra).
    setoid_replace (s / 2) with ((1 # 2) * s) by field. lra.
Qed.

Lemma quantity_near_target (calc : PositionCalculator) (info : SymbolInfo)
    (price bal : Q) (lev : Z) (single : bool) :
  0 < step_size info ->
  Qabs (calculate_position_size calc info price bal lev single
        - unrounded_quantity calc info price bal lev single) <= step_size info / 2.
Proof.
  intro Hs. unfold calculate_position_size. now apply round_times_step_near.
Qed.

Lemma max_quantity_divider (calc : PositionCalculator) (price bal : Q) (lev : Z) :
  max_quantity calc price bal lev true == 2 * max_quantity calc price bal lev false.
Proof.
  unfold max_quantity, divider, Qdiv.
  setoid_replace (/ 1) with 1 by reflexivity.
  setoid_replace (/ 2) with (1 # 2) by reflexivity.
  ring.
Qed.

Lemma unrounded_ge_min_required (calc : PositionCalculator) (info : SymbolInfo)
    (price bal : Q) (lev : Z) (single : bool) :
  min_required calc info price <= unrounded_quantity calc info price bal lev single.
Proof. apply py_max_ge_l. Qed.

Lemma min_required_ge_min_qty (calc : PositionCalculator) (info : SymbolInfo) (price : Q) :
  min_qty info <= min_required calc info price.
Proof. apply py_max_ge_r. Qed.

Lemma unrounded_above_floor (calc : PositionCalculator) (info : SymbolInfo)
    (price bal : Q) (lev : Z) (single : bool) :
  min_required calc info price <= max_quantity calc price bal lev single ->
  unrounded_quantity calc info price bal lev single == max_quantity calc price bal lev single.
Proof.
  intro H. unfold unrounded_quantity.
  rewrite py_min_same. apply py_max_eq_r. exact H.
Qed.

(* ------------------------------------------------------------------ *)
(** ** Sizing claims *)

(** C1 (counterexample): the notional floor is not guaranteed.  With
    [min_notional = 5], multiplier 1.2 and price 5000 the floor quantity is
    0.0012, the raw quantity 0.0005 is below it, and rounding to the
    nearest step returns 0.001, whose notional 5 is below 6. *)
Lemma calculate_position_size_below_notional_floor :
  max_quantity default_calculator 5000 10 1 false
    < min_required default_calculator cx_rules 5000 /\
  calculate_position_size default_calculator cx_rules 5000 10 1 false == 1 # 1000 /\
  calculate_position_size default_calculator cx_rules 5000 10 1 false * 5000
    < min_notional cx_rules * liquidity_multiplier default_calculator.
Proof. split; [|split]; vm_compute; reflexivity. Qed.

(** C1 (amended): for a positive price, [step_size] and [min_qty] (with a
    zero price or step the source raises [ZeroDivisionError]), the returned
    quantity is [k * step_size] for an integer [k >= 0]; it lies within half
    a step of [max(min_required, max_quantity)], so it is at least
    [min_required - step_size / 2]; and it is at least [min_qty] whenever
    [min_qty] is itself a multiple of [step_size]. *)
Theorem calculate_position_size_legal
    (calc : PositionCalculator) (info : SymbolInfo)
    (price bal : Q) (lev : Z) (single : bool) :
  0 < price -> 0 < step_size info -> 0 < min_qty info ->
  let q := calculate_position_size calc info price bal lev single in
  (exists k : Z, (0 <= k)%Z /\ q == inject_Z k * step_size info) /\
  Qabs (q - unrounded_quantity calc info price bal lev single) <= step_size info / 2 /\
  min_required calc info price - step_size info / 2 <= q /\
  (forall m : Z, min_qty info == inject_Z m * step_size info -> min_qty info <= q).
Proof.
  intros _ Hs Hmin q.
  pose proof (quantity_near_target calc info price bal lev single Hs) as Hnear.
  pose proof (unrounded_ge_min_required calc info price bal lev single) as Hge.
  pose proof (min_required_ge_min_qty calc info price) as Hmq.
  fold q in Hnear.
  set (t := unrounded_quantity calc info price bal lev single) in *.
  set (mr := min_required calc info price) in *.
  assert (Hk : forall m : Z, inject_Z m * step_size info <= t ->
                 (m <= py_round (t / step_size info))%Z).
  { intros m Hm. apply py_round_ge_int. apply Qle_shift_div_l; assumption. }
  split; [|split; [|split]].
  - exists (py_round (t / step_size info)). split.
    + apply Hk. setoid_replace (inject_Z 0 * step_size info) with 0 by ring. lra.
    + reflexivity.
  - exact Hnear.
  - apply Qabs_Qle_condition in Hnear. lra.
  - intros m Hm. rewrite Hm.
    unfold q, calculate_position_size. fold t.
    apply Qmult_le_compat_r; [|lra].
    rewrite <- Zle_Qle. apply Hk. rewrite <- Hm. lra.
Qed.

(** Instance of [calculate_position_size_legal] at the counterexample input. *)
Lemma calculate_position_size_legal_witness :
  0 < 5000 /\ 0 < step_size cx_rules /\ 0 < min_qty cx_rules /\
  Qabs (calculate_position_size default_calculator cx_rules 5000 10 1 false
        - unrounded_quantity default_calculator cx_rules 5000 10 1 false)
    <= step_size cx_rules / 2.
Proof.
  assert (Hs : 0 < step_size cx_rules) by (vm_compute; reflexivity).
  assert (Hm : 0 < min_qty cx_rules) by (vm_compute; reflexivity).
  assert (Hp : 0 < 5000) by (vm_compute; reflexivity).
  split; [exact Hp|split; [exact Hs|split; [exact Hm|]]].
  exact (proj1 (proj2 (calculate_position_size_legal
                         default_calculator cx_rules 5000 10 1 false Hp Hs Hm))).
Defined.

(** C2: the worked example of the spec.  With [price = 100], balance 1000,
    50 %, leverage 10, two legs, [min_notional = 5], multiplier 1.2,
    [min_qty = step_size = 0.001], the raw quantity is 25, the floor 0.06
    and the returned quantity exactly 25. *)
Theorem calculate_position_size_worked_example (tick : Q) :
  let info := mkSymbolInfo tick (1 # 1000) (1 # 1000) 5 in
  max_quantity default_calculator 100 1000 10 false == 25 /\
  min_required default_calculator info 100 == 6 # 100 /\
  calculate_position_size default_calculator info 100 1000 10 false == 25.
Proof. intro info. split; [|split]; vm_compute; reflexivity. Qed.

(** C8 (counterexample): when the floor binds, halving the budget does not
    halve the quantity.  With the inputs of the worked example and a
    balance of 1, both divisors give the floor 0.06. *)
Lemma calculate_position_size_divider_floor :
  let info := mkSymbolInfo (1 # 100) (1 # 1000) (1 # 1000) 5 in
  calculate_position_size default_calculator info 100 1 10 true == 6 # 100 /\
  calculate_position_size default_calculator info 100 1 10 false == 6 # 100 /\
  10 * step_size info <
    Qabs (calculate_position_size default_calculator info 100 1 10 true
          - 2 * calculate_position_size default_calculator info 100 1 10 false).
Proof. intro info. split; [|split]; vm_compute; reflexivity. Qed.

(** C8 (amended): for a positive price and step, when the two-leg raw
    quantity is not below the floor
    [min_required], the one-leg quantity and twice the two-leg quantity
    differ by at most one and a half steps. *)
Theorem calculate_position_size_divider_half
    (calc : PositionCalculator) (info : SymbolInfo) (price bal : Q) (lev : Z) :
  0 < price -> 0 < step_size info -> 0 < min_qty info ->
  min_required calc info price <= max_quantity calc price bal lev false ->
  Qabs (calculate_position_size calc info price bal lev true
        - 2 * calculate_position_size calc info price bal lev false)
    <= (3 # 2) * step_size info.
Proof.
  intros _ Hs Hmin Hfloor.
  pose proof (min_required_ge_min_qty calc info price) as Hmq.
  pose proof (max_quantity_divider calc price bal lev) as Hdiv.
  assert (Hfloor1 : min_required calc info price <= max_quantity calc price bal lev true)
    by lra.
  pose proof (quantity_near_target calc info price bal lev true Hs) as N1.
  pose proof (quantity_near_target calc info price bal lev false Hs) as N2.
  rewrite (unrounded_above_floor calc info price bal lev true Hfloor1) in N1.
  rewrite (unrounded_above_floor calc info price bal lev false Hfloor) in N2.
  apply Qabs_Qle_condition in N1. apply Qabs_Qle_condition in N2.
  apply Qabs_Qle_condition.
  setoid_replace (step_size info / 2) with ((1 # 2) * step_size info) in N1 by field.
  setoid_replace (step_size info / 2) with ((1 # 2) * step_size info) in N2 by field.
  lra.
Qed.

(** Instance of [calculate_position_size_divider_half] on the worked example. *)
Lemma calculate_position_size_divider_half_witness :
  let info := mkSymbolInfo (1 # 100) (1 # 1000) (1 # 1000) 5 in
  Qabs (calculate_position_size default_calculator info 100 1000 10 true
        - 2 * calculate_position_size default_calculator info 100 1000 10 false)
    <= (3 # 2) * step_size info.
Proof.
  intro info.
  apply calculate_position_size_divider_half; vm_compute; try reflexivity; discriminate.
Defined.

(* ------------------------------------------------------------------ *)
(** ** Closing positions *)

Section Closing.
Variable W : World.

Lemma quiet_ret {A} (a : A) : quiet (ret a).
Proof. intro st. exists []. rewrite app_nil_r. simpl. tauto. Qed.

Lemma quiet_raise {A} (e : exn) : quiet (A := A) (raise e).
Proof. intro st. exists []. rewrite app_nil_r. simpl. tauto. Qed.

Lemma quiet_request {A} (answer : nat -> result A) (ev : result A -> event) :
  (forall r, ev r <> EvPrint MsgPositionsClosed) -> quiet (request answer ev).
Proof.
  intros Hev st. exists [ev (answer (calls st))]. simpl. split; [reflexivity|].
  intros [H|[]]. exact (Hev _ H).
Qed.

Lemma quiet_print_other (msg : message) :
  msg <> MsgPositionsClosed -> quiet (print msg).
Proof.
  intros Hm st. exists [EvPrint msg]. simpl. split; [reflexivity|].
  intros [H|[]]. injection H. exact Hm.
Qed.

Lemma quiet_bind {A B} (m : M A) (k : A -> M B) :
  quiet m -> (forall a, quiet (k a)) -> quiet (bind m k).
Proof.
  intros Hm Hk st. unfold bind.
  destruct (Hm st) as [r1 [E1 N1]].
  destruct (m st) as [[a|e] st'].
  - destruct (Hk a st') as [r2 [E2 N2]]. exists (r1 ++ r2).
    simpl in E1. rewrite E2, E1, app_assoc. split; [reflexivity|].
    rewrite in_app_iff. tauto.
  - exists r1. exact (conj E1 N1).
Qed.

Lemma quiet_try {A} (m : M A) (h : exn -> M A) :
  quiet m -> (forall e, quiet (h e)) -> quiet (try_except m h).
Proof.
  intros Hm Hh st. unfold try_except.
  destruct (Hm st) as [r1 [E1 N1]].
  destruct (m st) as [[a|e] st'].
  - exists r1. exact (conj E1 N1).
  - destruct (Hh e st') as [r2 [E2 N2]]. exists (r1 ++ r2).
    simpl in E1. rewrite E2, E1, app_assoc. split; [reflexivity|].
    rewrite in_app_iff. tauto.
Qed.

Lemma quiet_place_order c symbol side position_side quantity :
  quiet (place_order W c symbol side position_side quantity).
Proof. apply quiet_request. discriminate. Qed.

Lemma quiet_position_risk c symbol : quiet (get_position_risk W c symbol).
Proof. apply quiet_request. discriminate. Qed.

Lemma quiet_close_one c symbol pos : quiet (close_one W c symbol pos).
Proof.
  destruct pos as [[amt|] side pnl|]; unfold close_one.
  - destruct (Qeq_bool amt 0).
    + apply quiet_ret.
    + apply quiet_bind; [apply quiet_place_order|intro; apply quiet_ret].
  - apply quiet_raise.
  - apply quiet_ret.
Qed.

Lemma quiet_close_each c symbol positions : quiet (close_each W c symbol positions).
Proof.
  induction positions as [|pos rest IH]; simpl.
  - apply quiet_ret.
  - apply quiet_bind; [apply quiet_close_one|intro; exact IH].
Qed.

(** [close_positions] returns normally on every path. *)
Lemma close_positions_returns c symbol silent st :
  fst (close_positions W c symbol silent st) = Ok tt.
Proof.
  unfold close_positions, try_except.
  destruct (bind _ _ st) as [[[]|e] st']; reflexivity.
Qed.

(** A silent close starts by requesting the positions of the symbol and
    never prints the "positions closed" message. *)
Lemma close_positions_silent_log c symbol st :
  exists r rest,
    log (snd (close_positions W c symbol true st))
      = log st ++ EvPositionRisk c symbol r :: rest /\
    ~ In (EvPrint MsgPositionsClosed) rest.
Proof.
  unfold close_positions, try_except, bind at 1, get_position_risk, request.
  set (r := w_position_risk W c (calls st) symbol).
  exists r.
  assert (Hk : forall ps, quiet (let* _ := close_each W c symbol ps in ret tt)).
  { intro ps. apply quiet_bind; [apply quiet_close_each|intro; apply quiet_ret]. }
  destruct r as [ps|e].
  - destruct (Hk ps (emit (EvPositionRisk c symbol (Ok ps)) st)) as [rest [E N]].
    destruct (bind _ _ _) as [[a|e] st'] eqn:Hb; simpl in E.
    + exists rest. simpl. rewrite E, <- app_assoc. simpl. tauto.
    + exists (rest ++ [EvPrint MsgErrorClosing]). simpl. rewrite E, <- !app_assoc. simpl.
      split; [reflexivity|]. rewrite in_app_iff. intros [H|[H|[]]]; [tauto|discriminate].
  - exists [EvPrint MsgErrorClosing]. simpl. rewrite <- app_assoc. simpl.
    split; [reflexivity|]. intros [H|[]]; discriminate.
Qed.

End Closing.

(* ------------------------------------------------------------------ *)
(** ** Claims on the exchange-facing code *)

(** C4 (counterexample): with [silent = false], a failing request inside
    [close_positions] is not propagated: the request for the positions
    fails and [close_positions] still returns normally. *)
Lemma close_positions_not_silent_swallows :
  first_failure (log (snd (close_positions failing_world Client1 "BTCUSDT" false (init_state 0))))
    = Some ([], EvPositionRisk Client1 "BTCUSDT" (Err (ExchangeRequestError 500)),
            [EvPrint MsgErrorClosing]) /\
  fst (close_positions failing_world Client1 "BTCUSDT" false (init_state 0)) = Ok tt.
Proof. split; reflexivity. Qed.

(** C4 (amended): [close_positions] never raises, whatever [silent] is.
    When the attempt inside its [try] (requesting the positions, then
    closing each) raises, the error message is appended after the events of
    the attempt; when the attempt succeeds, the "positions closed" message
    is appended exactly when [silent] is false.  So [silent = true] only
    suppresses that message. *)
Theorem close_positions_never_raises (W : World) (c : client) (symbol : string)
    (silent : bool) (st : State) :
  let attempt := let* positions := get_position_risk W c symbol in
                 close_each W c symbol positions in
  fst (close_positions W c symbol silent st) = Ok tt /\
  (forall e, fst (attempt st) = Err e ->
     log (snd (close_positions W c symbol silent st))
       = log (snd (attempt st)) ++ [EvPrint MsgErrorClosing]) /\
  (fst (attempt st) = Ok tt ->
     log (snd (close_positions W c symbol silent st))
       = log (snd (attempt st)) ++ (if silent then [] else [EvPrint MsgPositionsClosed])) /\
  (silent = true ->
   exists rest, log (snd (close_positions W c symbol silent st)) = log st ++ rest /\
                ~ In (EvPrint MsgPositionsClosed) rest).
Proof.
  intro attempt.
  split; [apply close_positions_returns|].
  split; [|split].
  - intros e. unfold attempt, close_positions, try_except, bind.
    destruct (get_position_risk W c symbol st) as [[ps|e'] st1]; simpl.
    + destruct (close_each W c symbol ps st1) as [[[]|e'] st2]; simpl;
        [intro; discriminate|intro; reflexivity].
    + intro; reflexivity.
  - unfold attempt, close_positions, try_except, bind.
    destruct (get_position_risk W c symbol st) as [[ps|e'] st1]; simpl; [|discriminate].
    destruct (close_each W c symbol ps st1) as [[[]|e'] st2]; simpl; [|discriminate].
    intros _. destruct silent; simpl; [rewrite app_nil_r|]; reflexivity.
  - intros ->. destruct (close_positions_silent_log W c symbol st) as [r [rest [E N]]].
    exists (EvPositionRisk c symbol r :: rest). split; [exact E|].
    intros [H|H]; [discriminate|exact (N H)].
Qed.

(** Instance of [close_positions_never_raises]: a close that is not
    silent, against an exchange whose position request fails, returns
    normally after printing the error message. *)
Lemma close_positions_never_raises_witness :
  fst (close_positions failing_world Client1 "BTCUSDT" false (init_state 0)) = Ok tt /\
  log (snd (close_positions failing_world Client1 "BTCUSDT" false (init_state 0)))
    = [EvPositionRisk Client1 "BTCUSDT" (Err (ExchangeRequestError 500));
       EvPrint MsgErrorClosing].
Proof.
  destruct (close_positions_never_raises failing_world Client1 "BTCUSDT" false
              (init_state 0)) as [H1 [H2 _]].
  split; [exact H1|]. rewrite (H2 (ExchangeRequestError 500) eq_refl). reflexivity.
Defined.

(** C7: if a request of [open_hedged_positions] fails and the first failed
    request is the placement of an order (either leg), then the call
    raises that very error, and the events after the failed order begin
    with the silent close of the symbol: a request for its positions,
    without the "positions closed" message. *)
Theorem open_hedged_positions_cleanup (W : World) (calc : PositionCalculator)
    (symbol : string) (leverage : Z) (n : nat) :
  let res := open_hedged_positions W calc symbol leverage (init_state n) in
  forall pre c sym side position_side quantity e post,
  first_failure (log (snd res))
    = Some (pre, EvPlaceOrder c sym side position_side quantity (Err e), post) ->
  fst res = Err e /\
  exists r rest, post = EvPositionRisk Client1 symbol r :: rest /\
                 ~ In (EvPrint MsgPositionsClosed) rest.
Proof.
  intros res. unfold res. clear res.
  intros pre c sym side position_side quantity e post.
  unfold open_hedged_positions.
  pose proof (close_positions_silent_log W Client1 symbol) as HC.
  pose proof (close_positions_returns W Client1 symbol true) as HR.
  set (CP := close_positions W Client1 symbol true) in *.
  clearbody CP.
  unfold size_position, get_usdt_balance, get_account_balance, get_symbol_info,
    get_market_prices, get_orderbook, random_choice, place_order, request, bind, ret, raise,
    try_except, emit.
  repeat (simpl; match goal with
    | |- context [CP ?s] =>
        let r := fresh "r" in let rest := fresh "rest" in
        let E := fresh "E" in let N := fresh "N" in let R := fresh "R" in
        destruct (HC s) as [r [rest [E N]]]; pose proof (HR s) as R;
        destruct (CP s) as [? ?]; simpl in E, R; subst
    | |- context [match ?x with Ok _ => _ | Err _ => _ end] => destruct x eqn:?
    | |- context [match ?x with Some _ => _ | None => _ end] => destruct x eqn:?
    | |- context [match ?x with [] => _ | _ :: _ => _ end] => destruct x eqn:?
    | |- context [if ?b then _ else _] => destruct b eqn:?
    | |- context [match ?x with (_, _) => _ end] => is_var x; destruct x eqn:?
    end).
  all: simpl; intro H; try discriminate.
  all: match goal with E : log ?s = _ |- _ => rewrite E in H end.
  all: simpl in H; inversion H; subst.
  all: split; [reflexivity|eauto].
Qed.

(** C6: a successful [open_opposite_positions] reads both balances, the
    symbol rules and the order book, sizes one quantity from
    [min(balance1, balance2)] with [single_position=True] (divisor 1), and
    places exactly two orders of that quantity: account 1 on one side,
    account 2 on the other. *)
Theorem open_opposite_positions_equal_quantity (W : World) (calc : PositionCalculator)
    (symbol : string) (leverage : Z) (n : nat) (p1 p2 : PositionInfo) (st' : State) :
  open_opposite_positions W calc symbol leverage (init_state n) = (Ok (p1, p2), st') ->
  exists (l1 l2 : list BalanceEntry) (info : SymbolInfo) (best_bid : Q) (bids : list Q)
         (best_ask : Q) (asks : list Q) (long_on_first : bool) (r1 r2 : option Q),
    let quantity :=
      calculate_position_size calc info ((best_bid + best_ask) / 2)
        (py_min (usdt_of l1) (usdt_of l2)) leverage true in
    let side1 := if long_on_first then "LONG"%string else "SHORT"%string in
    let side2 := if long_on_first then "SHORT"%string else "LONG"%string in
    divider true = 1 /\
    log st' =
      [EvBalance Client1 (Ok l1); EvBalance Client2 (Ok l2);
       EvSymbolInfo Client1 symbol (Ok (Some info));
       EvOrderbook Client1 symbol (Ok (best_bid :: bids, best_ask :: asks));
       EvChoice long_on_first;
       if long_on_first then EvPlaceOrder Client1 symbol "BUY" "LONG" quantity (Ok r1)
       else EvPlaceOrder Client1 symbol "SELL" "SHORT" quantity (Ok r1);
       if long_on_first then EvPlaceOrder Client2 symbol "SELL" "SHORT" quantity (Ok r2)
       else EvPlaceOrder Client2 symbol "BUY" "LONG" quantity (Ok r2)] /\
    pi_quantity p1 = quantity /\ pi_quantity p2 = quantity /\
    pi_side p1 = side1 /\ pi_side p2 = side2 /\ side1 <> side2.
Proof.
  unfold open_opposite_positions.
  set (CA := close_all_positions W symbol). clearbody CA.
  unfold open_leg, size_position, get_usdt_balance, get_account_balance, get_symbol_info,
    get_market_prices, get_orderbook, random_choice, place_order, request, bind, ret,
    raise, try_except, emit.
  repeat (simpl; match goal with
    | |- context [CA ?s] => destruct (CA s) as [[? | ?] ?]
    | |- context [match ?x with Ok _ => _ | Err _ => _ end] => destruct x eqn:?
    | |- context [match ?x with Some _ => _ | None => _ end] => destruct x eqn:?
    | |- context [match ?x with [] => _ | _ :: _ => _ end] => destruct x eqn:?
    | |- context [if ?b then _ else _] => destruct b eqn:?
    | |- context [match ?x with (_, _) => _ end] => is_var x; destruct x eqn:?
    end).
  all: intro H; try discriminate.
  all: inversion H; subst; clear H.
  all: do 7 eexists.
  all: first [ exists true; do 2 eexists; simpl;
               solve [repeat split; first [reflexivity | discriminate]]
             | exists false; do 2 eexists; simpl;
               solve [repeat split; first [reflexivity | discriminate]] ].
Qed.

(** Instance of [open_hedged_positions_cleanup]: the second leg fails. *)
Lemma open_hedged_positions_cleanup_witness :
  first_failure (log (snd (open_hedged_positions hedge_world default_calculator "BTCUSDT" 10
                             (init_state 0))))
    = Some (hedge_events_before,
            EvPlaceOrder Client1 "BTCUSDT" "SELL" "SHORT" hedge_quantity
              (Err (ExchangeRequestError 400)),
            hedge_events_after) /\
  fst (open_hedged_positions hedge_world default_calculator "BTCUSDT" 10 (init_state 0))
    = Err (ExchangeRequestError 400) /\
  exists r rest, hedge_events_after = EvPositionRisk Client1 "BTCUSDT" r :: rest /\
                 ~ In (EvPrint MsgPositionsClosed) rest.
Proof.
  assert (H : first_failure (log (snd (open_hedged_positions hedge_world default_calculator
                                        "BTCUSDT" 10 (init_state 0))))
              = Some (hedge_events_before,
                      EvPlaceOrder Client1 "BTCUSDT" "SELL" "SHORT" hedge_quantity
                        (Err (ExchangeRequestError 400)),
                      hedge_events_after))
    by (vm_compute; reflexivity).
  split; [exact H|].
  exact (open_hedged_positions_cleanup hedge_world default_calculator "BTCUSDT" 10 0
           _ _ _ _ _ _ _ _ H).
Defined.

(** Instance of [open_opposite_positions_equal_quantity] on balances 1000
    and 300: both legs get 15, sized against 300. *)
Lemma open_opposite_positions_equal_quantity_witness :
  exists p1 p2 st',
  open_opposite_positions dual_world default_calculator "BTCUSDT" 10 (init_state 0)
    = (Ok (p1, p2), st') /\
  pi_quantity p1 == 15 /\ pi_quantity p2 == 15 /\
  exists (l1 l2 : list BalanceEntry) (info : SymbolInfo) (best_bid : Q) (bids : list Q)
         (best_ask : Q) (asks : list Q) (long_on_first : bool) (r1 r2 : option Q),
    let quantity :=
      calculate_position_size default_calculator info ((best_bid + best_ask) / 2)
        (py_min (usdt_of l1) (usdt_of l2)) 10 true in
    let side1 := if long_on_first then "LONG"%string else "SHORT"%string in
    let side2 := if long_on_first then "SHORT"%string else "LONG"%string in
    divider true = 1 /\
    log st' =
      [EvBalance Client1 (Ok l1); EvBalance Client2 (Ok l2);
       EvSymbolInfo Client1 "BTCUSDT" (Ok (Some info));
       EvOrderbook Client1 "BTCUSDT" (Ok (best_bid :: bids, best_ask :: asks));
       EvChoice long_on_first;
       if long_on_first then EvPlaceOrder Client1 "BTCUSDT" "BUY" "LONG" quantity (Ok r1)
       else EvPlaceOrder Client1 "BTCUSDT" "SELL" "SHORT" quantity (Ok r1);
       if long_on_first then EvPlaceOrder Client2 "BTCUSDT" "SELL" "SHORT" quantity (Ok r2)
       else EvPlaceOrder Client2 "BTCUSDT" "BUY" "LONG" quantity (Ok r2)] /\
    pi_quantity p1 = quantity /\ pi_quantity p2 = quantity /\
    pi_side p1 = side1 /\ pi_side p2 = side2 /\ side1 <> side2.
Proof.
  lazymatch goal with
  | |- exists p1 p2 st', ?F = (Ok (p1, p2), st') /\ _ =>
      let v := eval vm_compute in F in
      lazymatch v with
      | (Ok (?a, ?b), ?c) =>
          exists a, b, c;
          assert (H : F = (Ok (a, b), c)) by (vm_compute; reflexivity)
      end
  end.
  split; [exact H|].
  split; [vm_compute; reflexivity|].
  split; [vm_compute; reflexivity|].
  exact (open_opposite_positions_equal_quantity dual_world default_calculator
           "BTCUSDT" 10 0 _ _ _ H).
Defined.

(* ------------------------------------------------------------------ *)
(** ** Cycle loop claims *)

Lemma Qle_bool_false_lt (x y : Q) : Qle_bool x y = false -> y < x.
Proof.
  intro H. apply Qnot_le_lt. intro H'. apply Qle_bool_iff in H'. congruence.
Qed.

(** C3 (counterexample): a cycle that raises stops the loop although the
    loss cap is far away, in both variants. *)
Lemma trading_cycle_error_stops :
  Qabs 0 < 100 /\
  fst (run_volume_trading_cycle 100 (mkVolumeState 0 0) VolumeRaised) = false /\
  fst (run_dual_trading_cycle 100 (mkDualState 0 0 0 0) DualRaised) = false.
Proof. split; [|split]; vm_compute; reflexivity. Qed.

(** C3 (amended), both variants: when [abs(total_pnl) >= max_loss_usdt]
    before the cycle, it stops without opening anything; a cycle that
    raises stops with the statistics unchanged; a cycle that settles adds
    its PnL and stops iff [abs(total_pnl) >= max_loss_usdt] afterwards.
    So a cycle reports stop iff it raised or the new total has reached the
    cap (reaching it exactly is a stop). *)
Theorem trading_cycle_stop_condition (max_loss_usdt : Q) :
  (forall st o,
     let r := run_volume_trading_cycle max_loss_usdt st o in
     (max_loss_usdt <= Qabs (v_total_pnl st) -> r = (false, st)) /\
     (o = VolumeRaised -> r = (false, st)) /\
     (forall before after, o = VolumeSettled before after ->
        Qabs (v_total_pnl st) < max_loss_usdt ->
        v_total_pnl (snd r) = v_total_pnl st + (after - before) /\
        v_cycles_completed (snd r) = S (v_cycles_completed st)) /\
     (fst r = false <-> o = VolumeRaised \/ max_loss_usdt <= Qabs (v_total_pnl (snd r)))) /\
  (forall st o,
     let r := run_dual_trading_cycle max_loss_usdt st o in
     (max_loss_usdt <= Qabs (d_total_pnl st) -> r = (false, st)) /\
     (o = DualRaised -> r = (false, st)) /\
     (forall b1 b2 a1 a2, o = DualSettled b1 b2 a1 a2 ->
        Qabs (d_total_pnl st) < max_loss_usdt ->
        d_total_pnl (snd r) = d_total_pnl st + ((a1 - b1) + (a2 - b2)) /\
        d_cycles_completed (snd r) = S (d_cycles_completed st)) /\
     (fst r = false <-> o = DualRaised \/ max_loss_usdt <= Qabs (d_total_pnl (snd r)))).
Proof.
  split; intros st o r; unfold r, run_volume_trading_cycle, run_dual_trading_cycle, py_abs;
    clear r.
  - destruct (Qle_bool max_loss_usdt (Qabs (v_total_pnl st))) eqn:Hb.
    + apply Qle_bool_iff in Hb.
      refine (conj (fun _ => eq_refl) (conj (fun _ => eq_refl) (conj _ _))).
      * intros ? ? _ H. lra.
      * simpl. split; [intros _; right; exact Hb|reflexivity].
    + apply Qle_bool_false_lt in Hb.
      split; [intro H; lra|].
      destruct o as [|before after]; simpl.
      * refine (conj (fun _ => eq_refl) (conj _ _)).
        -- intros ? ? H. discriminate.
        -- split; [intros _; left; reflexivity|reflexivity].
      * destruct (Qle_bool max_loss_usdt _) eqn:Hc; simpl.
        -- apply Qle_bool_iff in Hc.
           refine (conj _ (conj _ _)); [discriminate| |].
           ++ intros ? ? Ho _. injection Ho as -> ->. split; reflexivity.
           ++ split; [intros _; right; exact Hc|reflexivity].
        -- apply Qle_bool_false_lt in Hc.
           refine (conj _ (conj _ _)); [discriminate| |].
           ++ intros ? ? Ho _. injection Ho as -> ->. split; reflexivity.
           ++ split; [discriminate|intros [H|H]; [discriminate|lra]].
  - destruct (Qle_bool max_loss_usdt (Qabs (d_total_pnl st))) eqn:Hb.
    + apply Qle_bool_iff in Hb.
      refine (conj (fun _ => eq_refl) (conj (fun _ => eq_refl) (conj _ _))).
      * intros ? ? ? ? _ H. lra.
      * simpl. split; [intros _; right; exact Hb|reflexivity].
    + apply Qle_bool_false_lt in Hb.
      split; [intro H; lra|].
      destruct o as [|b1 b2 a1 a2]; simpl.
      * refine (conj (fun _ => eq_refl) (conj _ _)).
        -- intros ? ? ? ? H. discriminate.
        -- split; [intros _; left; reflexivity|reflexivity].
      * destruct (Qle_bool max_loss_usdt _) eqn:Hc; simpl.
        -- apply Qle_bool_iff in Hc.
           refine (conj _ (conj _ _)); [discriminate| |].
           ++ intros ? ? ? ? Ho _. injection Ho as -> -> -> ->. split; reflexivity.
           ++ split; [intros _; right; exact Hc|reflexivity].
        -- apply Qle_bool_false_lt in Hc.
           refine (conj _ (conj _ _)); [discriminate| |].
           ++ intros ? ? ? ? Ho _. injection Ho as -> -> -> ->. split; reflexivity.
           ++ split; [discriminate|intros [H|H]; [discriminate|lra]].
Qed.

(** Instance of [trading_cycle_stop_condition]: a total of exactly
    [-100] against a cap of 100 stops the volume loop. *)
Lemma trading_cycle_stop_condition_witness :
  fst (run_volume_trading_cycle 100 (mkVolumeState (-60) 3) (VolumeSettled 1000 960)) = false.
Proof.
  apply (proj2 (proj2 (proj2 (proj2 (proj1 (trading_cycle_stop_condition 100)
                                          (mkVolumeState (-60) 3) (VolumeSettled 1000 960)))))).
  right. apply Qle_bool_iff. vm_compute. reflexivity.
Defined.

(* ------------------------------------------------------------------ *)
(** ** Monitoring claims *)

Section Monitor.
Variables (max_position_deviation_percent : Q) (hold_time : Z)
          (position1_info position2_info : PositionInfo).

Abbreviation iteration := (monitor_iteration max_position_deviation_percent hold_time
                         position1_info position2_info).
Abbreviation loop := (monitor_loop max_position_deviation_percent hold_time
                    position1_info position2_info).

(** Every [return] of the loop body returns [True]. *)
Lemma monitor_iteration_true m1 m2 p b : iteration m1 m2 p = Some b -> b = true.
Proof.
  unfold monitor_iteration.
  destruct (_ || _); [congruence|].
  destruct (deviation_exceeded _ _ _ _); [congruence|].
  destruct (deviation_exceeded _ _ _ _); [congruence|].
  destruct (0 ?= _); [|congruence|]; destruct (Qle_bool _ _); congruence.
Qed.

Lemma monitor_loop_true m1 m2 polls b j : loop m1 m2 polls = Some (b, j) -> b = true.
Proof.
  revert j. induction polls as [|p rest IH]; simpl; intros j H; [discriminate|].
  destruct (iteration m1 m2 p) as [b'|] eqn:Hi.
  - injection H as <- _. exact (monitor_iteration_true _ _ _ _ Hi).
  - destruct (loop m1 m2 rest) as [[b' k]|] eqn:Hl; [|discriminate].
    injection H as <- _. exact (IH k eq_refl).
Qed.

(** If the body returns at poll [k], the loop has returned [True] after at
    most [k + 1] iterations. *)
Lemma monitor_loop_stops_at m1 m2 polls k p :
  nth_error polls k = Some p -> iteration m1 m2 p = Some true ->
  exists j, (j <= S k)%nat /\ loop m1 m2 polls = Some (true, j).
Proof.
  revert k. induction polls as [|p0 rest IH]; intros k Hk Hi; [destruct k; discriminate|].
  simpl. destruct k as [|k].
  - simpl in Hk. injection Hk as ->. rewrite Hi. exists 1%nat. split; [lia|reflexivity].
  - simpl in Hk. destruct (iteration m1 m2 p0) as [b|] eqn:H0.
    + rewrite (monitor_iteration_true _ _ _ _ H0). exists 1%nat. split; [lia|reflexivity].
    + destruct (IH k Hk Hi) as [j [Hj Hl]]. rewrite Hl.
      exists (S j). split; [lia|reflexivity].
Qed.

Lemma monitor_iteration_dev1 m1 m2 p :
  deviation_exceeded max_position_deviation_percent (pi_side position1_info) m1
    (positions1 p) = true ->
  iteration m1 m2 p = Some true.
Proof. intro H. unfold monitor_iteration. rewrite H. destruct (_ || _); reflexivity. Qed.

Lemma monitor_iteration_dev2 m1 m2 p :
  deviation_exceeded max_position_deviation_percent (pi_side position2_info) m2
    (positions2 p) = true ->
  iteration m1 m2 p = Some true.
Proof.
  intro H. unfold monitor_iteration. rewrite H.
  repeat match goal with |- context [if ?b then _ else _] => destruct b end; reflexivity.
Qed.

Lemma monitor_iteration_hold m1 m2 p :
  inject_Z hold_time <= elapsed p -> iteration m1 m2 p = Some true.
Proof.
  intro H. apply Qle_bool_iff in H. unfold monitor_iteration. rewrite H.
  destruct (0 ?= _);
  repeat match goal with |- context [if ?b then _ else _] => destruct b end; reflexivity.
Qed.

End Monitor.

(** With a positive margin the code's [abs(pnl / margin) * 100] is
    [|pnl| / margin * 100]. *)
Lemma deviation_formula (pos : PositionDetail) (m : Q) :
  0 < m ->
  calculate_position_deviation pos m == Qabs (pd_unrealized_pnl pos) / m * 100.
Proof.
  intro Hm. unfold calculate_position_deviation, py_abs.
  destruct (Qeq_bool m 0) eqn:E.
  - apply Qeq_bool_iff in E. lra.
  - unfold Qdiv. rewrite Qabs_Qmult.
    rewrite (Qabs_pos (/ m)); [reflexivity|].
    apply Qlt_le_weak, Qinv_lt_0_compat, Hm.
Qed.

Lemma deviation_exceeded_intro max_dev side m positions pos :
  In pos positions -> pd_side pos = side -> 0 < m ->
  max_dev <= Qabs (pd_unrealized_pnl pos) / m * 100 ->
  deviation_exceeded max_dev side m positions = true.
Proof.
  intros Hin Hs Hm Hd. unfold deviation_exceeded. apply existsb_exists.
  exists pos. split; [exact Hin|].
  rewrite Hs, String.eqb_refl. simpl. apply Qle_bool_iff.
  rewrite deviation_formula by exact Hm. exact Hd.
Qed.

Lemma sum_pnl_reprice (f g : PositionDetail -> Q) (positions : list PositionDetail) :
  sum_pnl (map (reprice_detail f g) positions) = sum_pnl positions.
Proof.
  unfold sum_pnl. generalize 0.
  induction positions as [|d rest IH]; intro acc; simpl; [reflexivity|apply IH].
Qed.

Lemma deviation_exceeded_reprice (f g : PositionDetail -> Q) max_dev side m positions :
  deviation_exceeded max_dev side m (map (reprice_detail f g) positions)
  = deviation_exceeded max_dev side m positions.
Proof.
  unfold deviation_exceeded.
  induction positions as [|d rest IH]; simpl; [reflexivity|]. rewrite IH. reflexivity.
Qed.

Lemma is_empty_map {A B} (h : A -> B) (l : list A) : is_empty (map h l) = is_empty l.
Proof. destruct l; reflexivity. Qed.

Lemma monitor_loop_reprice (f g : PositionDetail -> Q) max_dev hold info1 info2 m1 m2 polls :
  monitor_loop max_dev hold info1 info2 m1 m2 (map (reprice_poll f g) polls)
  = monitor_loop max_dev hold info1 info2 m1 m2 polls.
Proof.
  induction polls as [|p rest IH]; simpl; [reflexivity|].
  rewrite IH. unfold monitor_iteration, reprice_poll. simpl.
  rewrite !is_empty_map, !deviation_exceeded_reprice, !sum_pnl_reprice. reflexivity.
Qed.

(** C5: at any poll where some position of account 1 (resp. 2) on the side
    opened for that account has [|unrealized_pnl| / margin * 100] at least
    [max_position_deviation_percent], with the margin
    [quantity * entry_price / leverage] of the opened position, the
    monitor has returned [True] by that poll.  The margins are fixed when
    the monitor starts: changing the live entry prices and margins the
    exchange reports for the polled positions does not change the
    monitor's behaviour. *)
Theorem monitor_positions_deviation_stop (max_position_deviation_percent : Q) (hold_time : Z)
    (position1_info position2_info : PositionInfo) (leverage : Z) :
  (forall polls k p,
     nth_error polls k = Some p ->
     (exists pos, In pos (positions1 p) /\ pd_side pos = pi_side position1_info /\
        0 < position_margin position1_info leverage /\
        max_position_deviation_percent
          <= Qabs (pd_unrealized_pnl pos) / position_margin position1_info leverage * 100) \/
     (exists pos, In pos (positions2 p) /\ pd_side pos = pi_side position2_info /\
        0 < position_margin position2_info leverage /\
        max_position_deviation_percent
          <= Qabs (pd_unrealized_pnl pos) / position_margin position2_info leverage * 100) ->
     exists j, (j <= S k)%nat /\
       monitor_positions max_position_deviation_percent hold_time
         position1_info position2_info leverage polls = Some (true, j)) /\
  (forall f g polls,
     monitor_positions max_position_deviation_percent hold_time
       position1_info position2_info leverage (map (reprice_poll f g) polls)
     = monitor_positions max_position_deviation_percent hold_time
         position1_info position2_info leverage polls).
Proof.
  split.
  - intros polls k p Hk Hdev. unfold monitor_positions.
    apply (monitor_loop_stops_at _ _ _ _ _ _ polls k p Hk).
    destruct Hdev as [[pos [Hin [Hs [Hm Hd]]]]|[pos [Hin [Hs [Hm Hd]]]]].
    + apply monitor_iteration_dev1.
      exact (deviation_exceeded_intro _ _ _ _ pos Hin Hs Hm Hd).
    + apply monitor_iteration_dev2.
      exact (deviation_exceeded_intro _ _ _ _ pos Hin Hs Hm Hd).
  - intros f g polls. unfold monitor_positions. apply monitor_loop_reprice.
Qed.

(** Instance of [monitor_positions_deviation_stop] on that example. *)
Lemma monitor_positions_deviation_stop_witness :
  exists j, (j <= 1)%nat /\
    monitor_positions 20 300 dev_info1 dev_info2 10 [dev_poll] = Some (true, j).
Proof.
  apply (proj1 (monitor_positions_deviation_stop 20 300 dev_info1 dev_info2 10)
           [dev_poll] 0%nat dev_poll eq_refl).
  left. exists dev_pos1.
  split; [left; reflexivity|].
  split; [reflexivity|].
  split; [vm_compute; reflexivity|].
  apply Qle_bool_iff. vm_compute. reflexivity.
Defined.

(** C9: whatever the polls report, the monitor has returned by the first
    poll whose elapsed time reaches [max_hold_time_sec], when the drawn hold
    time lies in [[min_hold_time_sec, max_hold_time_sec]]; and every
    return of the monitor returns [True]. *)
Theorem monitor_positions_hold_bound (max_position_deviation_percent : Q)
    (min_hold_time_sec max_hold_time_sec hold_time : Z)
    (position1_info position2_info : PositionInfo) (leverage : Z) :
  (forall polls k p,
     (min_hold_time_sec <= hold_time <= max_hold_time_sec)%Z ->
     nth_error polls k = Some p ->
     inject_Z max_hold_time_sec <= elapsed p ->
     exists j, (j <= S k)%nat /\
       monitor_positions max_position_deviation_percent hold_time
         position1_info position2_info leverage polls = Some (true, j)) /\
  (forall polls b j,
     monitor_positions max_position_deviation_percent hold_time
       position1_info position2_info leverage polls = Some (b, j) -> b = true).
Proof.
  split.
  - intros polls k p Hh Hk He. unfold monitor_positions.
    apply (monitor_loop_stops_at _ _ _ _ _ _ polls k p Hk).
    apply monitor_iteration_hold.
    assert (inject_Z hold_time <= inject_Z max_hold_time_sec) by (rewrite <- Zle_Qle; lia).
    lra.
  - intros polls b j H. unfold monitor_positions in H.
    exact (monitor_loop_true _ _ _ _ _ _ _ _ _ H).
Qed.

(** Instance of [monitor_positions_hold_bound]: hold time 120 drawn in
    [[30, 300]]; the loop returns at the poll at 120 s. *)
Lemma monitor_positions_hold_bound_witness :
  exists j, (j <= 4)%nat /\
    monitor_positions 20 120 dev_info1 dev_info2 10
      [quiet_poll 0; quiet_poll 60; quiet_poll 120; quiet_poll 300] = Some (true, j).
Proof.
  apply (proj1 (monitor_positions_hold_bound 20 30 300 120 dev_info1 dev_info2 10)
           _ 3%nat (quiet_poll 300)).
  - lia.
  - reflexivity.
  - apply Qle_bool_iff. vm_compute. reflexivity.
Defined.

(** C10: with a zero margin [calculate_position_deviation] takes the
    guard and returns 0, so with the validated configuration
    ([max_position_deviation_percent > 0]) the deviation check of a
    zero-margin position never fires. *)
Theorem calculate_position_deviation_zero_margin :
  (forall pos m, m == 0 -> calculate_position_deviation pos m = 0) /\
  (forall max_position_deviation_percent side m positions,
     m == 0 -> 0 < max_position_deviation_percent ->
     deviation_exceeded max_position_deviation_percent side m positions = false).
Proof.
  assert (Hz : forall pos m, m == 0 -> calculate_position_deviation pos m = 0).
  { intros pos m Hm. unfold calculate_position_deviation.
    apply Qeq_bool_iff in Hm. rewrite Hm. reflexivity. }
  split; [exact Hz|].
  intros max_dev side m positions Hm Hpos. unfold deviation_exceeded.
  apply not_true_is_false. intro H. apply existsb_exists in H.
  destruct H as [pos [_ H]]. apply andb_true_iff in H. destruct H as [_ H].
  rewrite (Hz pos m Hm) in H. apply Qle_bool_iff in H. lra.
Qed.

(** Instance of [calculate_position_deviation_zero_margin]: a position
    with zero margin and a loss of 25 under a cap of 20. *)
Lemma calculate_position_deviation_zero_margin_witness :
  calculate_position_deviation dev_pos1 0 = 0 /\
  deviation_exceeded 20 "LONG" 0 [dev_pos1] = false.
Proof.
  split.
  - apply (proj1 calculate_position_deviation_zero_margin). reflexivity.
  - apply (proj2 calculate_position_deviation_zero_margin); [reflexivity|].
    vm_compute. reflexivity.
Defined.

(* ------------------------------------------------------------------ *)
(** ** Further properties of the bots, the sizing and the parsing *)

Lemma py_round_Qeq (x y : Q) : x == y -> py_round x = py_round y.
Proof.
  intro H. unfold py_round. rewrite (Qfloor_comp x y H).
  assert (E : (x - inject_Z (Qfloor y) ?= 1 # 2) = (y - inject_Z (Qfloor y) ?= 1 # 2))
    by (rewrite H; reflexivity).
  rewrite E. reflexivity.
Qed.

Lemma py_round_mono (x y : Q) : x <= y -> (py_round x <= py_round y)%Z.
Proof.
  intro H. destruct (Z_le_gt_dec (py_round x) (py_round y)) as [L|L]; [exact L|].
  exfalso.
  assert (L' : inject_Z (py_round y) + 1 <= inject_Z (py_round x)).
  { rewrite <- inject_Z_succ. rewrite <- Zle_Qle. lia. }
  destruct (py_round_bounds x) as [Hx1 Hx2]. destruct (py_round_bounds y) as [Hy1 Hy2].
  assert (Exy : x == y) by lra.
  rewrite (py_round_Qeq x y Exy) in L. lia.
Qed.

Lemma py_max_mono_r (a b b' : Q) : b <= b' -> py_max a b <= py_max a b'.
Proof.
  intro H. unfold py_max.
  destruct (Qcompare_spec a b) as [E|E|E]; destruct (Qcompare_spec a b') as [E'|E'|E']; lra.
Qed.

Lemma py_max_eq_l (a b : Q) : b <= a -> py_max a b = a.
Proof.
  intro H. unfold py_max. destruct (Qcompare_spec a b) as [E|E|E]; [reflexivity|lra|reflexivity].
Qed.

Lemma max_quantity_scale (calc : PositionCalculator) (price bal : Q) (lev : Z) (single : bool) :
  max_quantity calc price bal lev single
    == bal * (balance_percentage calc / 100 / divider single * inject_Z lev / price).
Proof. unfold max_quantity, Qdiv. ring. Qed.

(** X1: when the quantity the balance allows is at most [min_required],
    [calculate_position_size] returns [min_required] rounded half-to-even to a
    multiple of [step_size]; the balance no longer matters. *)
Theorem calculate_position_size_at_floor
    (calc : PositionCalculator) (info : SymbolInfo) (price bal : Q) (lev : Z) (single : bool) :
  max_quantity calc price bal lev single <= min_required calc info price ->
  calculate_position_size calc info price bal lev single
    = inject_Z (py_round (min_required calc info price / step_size info)) * step_size info.
Proof.
  intro H. unfold calculate_position_size, unrounded_quantity.
  rewrite py_min_same, py_max_eq_l by exact H. reflexivity.
Qed.

(** X2: for a positive price and step, a non-negative percentage and leverage,
    a larger available balance never gives a smaller quantity. *)
Theorem calculate_position_size_mono_balance
    (calc : PositionCalculator) (info : SymbolInfo) (price bal1 bal2 : Q) (lev : Z)
    (single : bool) :
  0 < price -> 0 < step_size info -> 0 <= balance_percentage calc -> (0 <= lev)%Z ->
  bal1 <= bal2 ->
  calculate_position_size calc info price bal1 lev single
    <= calculate_position_size calc info price bal2 lev single.
Proof.
  intros Hp Hs Hpct Hlev Hb.
  unfold calculate_position_size, unrounded_quantity. rewrite !py_min_same.
  assert (Hk : 0 <= balance_percentage calc / 100 / divider single * inject_Z lev / price).
  { unfold Qdiv.
    repeat apply Qmult_le_0_compat; try apply Qinv_le_0_compat; try lra.
    all: first [ destruct single; unfold divider; lra
               | change 0 with (inject_Z 0); rewrite <- Zle_Qle; exact Hlev ]. }
  assert (Hm : max_quantity calc price bal1 lev single <= max_quantity calc price bal2 lev single).
  { rewrite !max_quantity_scale. apply Qmult_le_compat_r; assumption. }
  apply Qmult_le_compat_r; [|lra].
  rewrite <- Zle_Qle. apply py_round_mono.
  unfold Qdiv. apply Qmult_le_compat_r.
  - apply py_max_mono_r. exact Hm.
  - apply Qinv_le_0_compat. lra.
Qed.

(** X3: for a positive initial margin, the deviation reaches a cap (in
    percent) exactly when the absolute unrealized PnL reaches [cap *
    initial_margin / 100]. *)
Theorem calculate_position_deviation_threshold
    (position : PositionDetail) (initial_margin cap : Q) :
  0 < initial_margin ->
  (cap <= calculate_position_deviation position initial_margin
   <-> cap * initial_margin / 100 <= Qabs (pd_unrealized_pnl position)).
Proof.
  intro Hm.
  pose proof (deviation_formula position initial_margin Hm) as D.
  set (x := Qabs (pd_unrealized_pnl position)) in *.
  rewrite D.
  assert (Hk : 0 < initial_margin / 100).
  { apply Qlt_shift_div_l; [reflexivity|]. lra. }
  rewrite <- (Qmult_le_r cap (x / initial_margin * 100) (initial_margin / 100) Hk).
  setoid_replace (x / initial_margin * 100 * (initial_margin / 100)) with x
    by (field; intro E; rewrite E in Hm; discriminate).
  setoid_replace (cap * (initial_margin / 100)) with (cap * initial_margin / 100) by field.
  reflexivity.
Qed.

(** X4: an iteration of [monitor_positions] does not return (it sleeps and
    polls again) exactly when both accounts still have positions, neither
    side deviates past the limit, the combined PnL is not positive and the
    hold time has not elapsed. *)
Theorem monitor_iteration_continues (max_position_deviation_percent : Q) (hold_time : Z)
    (position1_info position2_info : PositionInfo) (position1_margin position2_margin : Q)
    (p : Poll) :
  monitor_iteration max_position_deviation_percent hold_time position1_info position2_info
    position1_margin position2_margin p = None
  <-> positions1 p <> [] /\ positions2 p <> [] /\
      deviation_exceeded max_position_deviation_percent (pi_side position1_info)
        position1_margin (positions1 p) = false /\
      deviation_exceeded max_position_deviation_percent (pi_side position2_info)
        position2_margin (positions2 p) = false /\
      sum_pnl (positions1 p) + sum_pnl (positions2 p) <= 0 /\
      elapsed p < inject_Z hold_time.
Proof.
  unfold monitor_iteration.
  destruct (positions1 p) as [|a l1]; [simpl; split; [discriminate|intros [H _]; congruence]|].
  destruct (positions2 p) as [|b l2]; [simpl; split; [discriminate|intros [_ [H _]]; congruence]|].
  simpl orb. cbv iota beta.
  destruct (deviation_exceeded _ _ _ (a :: l1)) eqn:D1;
    [split; [discriminate|intros [_ [_ [H _]]]; congruence]|].
  destruct (deviation_exceeded _ _ _ (b :: l2)) eqn:D2;
    [split; [discriminate|intros [_ [_ [_ [H _]]]]; congruence]|].
  match goal with |- context [0 ?= ?t] => destruct (0 ?= t) eqn:C end.
  - apply Qeq_alt in C.
    destruct (Qle_bool (inject_Z hold_time) (elapsed p)) eqn:H.
    + apply Qle_bool_iff in H. split; [discriminate|intros (_&_&_&_&_&H'); lra].
    + apply Qle_bool_false_lt in H.
      split; [intros _; repeat split; try discriminate; try reflexivity; lra|reflexivity].
  - apply Qlt_alt in C. split; [discriminate|intros (_&_&_&_&H&_); lra].
  - apply Qgt_alt in C.
    destruct (Qle_bool (inject_Z hold_time) (elapsed p)) eqn:H.
    + apply Qle_bool_iff in H. split; [discriminate|intros (_&_&_&_&_&H'); lra].
    + apply Qle_bool_false_lt in H.
      split; [intros _; repeat split; try discriminate; try reflexivity; lra|reflexivity].
Qed.

Lemma volume_wait_breaks_dec (close_time : Z) (elapsed current_pnl : Q) :
  volume_wait_loop close_time [(elapsed, current_pnl)] = Some 1%nat
  <-> volume_wait_breaks close_time (elapsed, current_pnl).
Proof.
  unfold volume_wait_breaks. cbn [volume_wait_loop fst snd].
  destruct (0 ?= current_pnl) eqn:C.
  - apply Qeq_alt in C.
    destruct (Qle_bool _ _) eqn:H.
    + apply Qle_bool_iff in H. tauto.
    + apply Qle_bool_false_lt in H. split; [discriminate|intros [H'|H']; lra].
  - apply Qlt_alt in C. tauto.
  - apply Qgt_alt in C.
    destruct (Qle_bool _ _) eqn:H.
    + apply Qle_bool_iff in H. tauto.
    + apply Qle_bool_false_lt in H. split; [discriminate|intros [H'|H']; lra].
Qed.

Lemma volume_wait_loop_cons (close_time : Z) (poll : Q * Q) (rest : list (Q * Q)) :
  volume_wait_loop close_time (poll :: rest)
  = if match volume_wait_loop close_time [poll] with Some _ => true | None => false end
    then Some 1%nat
    else match volume_wait_loop close_time rest with Some k => Some (S k) | None => None end.
Proof.
  destruct poll as [e c]. cbn [volume_wait_loop].
  destruct (0 ?= c); try reflexivity; destruct (Qle_bool _ _); reflexivity.
Qed.

Lemma volume_wait_step (close_time : Z) (poll : Q * Q) :
  {volume_wait_loop close_time [poll] = Some 1%nat} + {volume_wait_loop close_time [poll] = None}.
Proof.
  destruct poll as [e c]. cbn [volume_wait_loop].
  destruct (0 ?= c); [destruct (Qle_bool _ _)| |destruct (Qle_bool _ _)]; auto.
Qed.

(** X5: the waiting loop of a volume cycle breaks at the first poll whose PnL
    is positive or whose elapsed time reaches [close_time]; once a poll reads
    an elapsed time of at least [max_close_time_sec >= close_time], it has
    broken, at that poll or before. *)
Theorem volume_wait_loop_exit (close_time max_close_time_sec : Z) (polls : list (Q * Q))
    (k : nat) (p : Q * Q) :
  (close_time <= max_close_time_sec)%Z ->
  nth_error polls k = Some p -> inject_Z max_close_time_sec <= fst p ->
  exists j, volume_wait_loop close_time polls = Some (S j) /\ (j <= k)%nat /\
    (exists q, nth_error polls j = Some q /\ volume_wait_breaks close_time q) /\
    (forall i q, (i < j)%nat -> nth_error polls i = Some q -> ~ volume_wait_breaks close_time q).
Proof.
  intros Hc. revert k. induction polls as [|poll rest IH]; intros k Hk He.
  - destruct k; discriminate.
  - rewrite volume_wait_loop_cons.
    destruct (volume_wait_step close_time poll) as [B|B]; rewrite B.
    + exists 0%nat. split; [reflexivity|]. split; [lia|]. split.
      * exists poll. split; [reflexivity|]. destruct poll. apply volume_wait_breaks_dec, B.
      * intros i q Hi. lia.
    + destruct k as [|k].
      * simpl in Hk. injection Hk as Hp. subst poll. exfalso.
        assert (Hb : volume_wait_breaks close_time p).
        { right. apply Qle_trans with (inject_Z max_close_time_sec); [|exact He].
          rewrite <- Zle_Qle. exact Hc. }
        destruct p. apply volume_wait_breaks_dec in Hb. congruence.
      * destruct (IH k Hk He) as (j & E & Hj & Hq & Hb).
        exists (S j). rewrite E. split; [reflexivity|]. split; [lia|]. split; [exact Hq|].
        intros [|i] q Hi Hq'.
        -- simpl in Hq'. injection Hq' as Hq'. subst q. intro Hbr.
           destruct poll. apply volume_wait_breaks_dec in Hbr. congruence.
        -- apply (Hb i q); [lia|exact Hq'].
Qed.

(** X6: over a non-empty run of cycles, the volume loop stops only after a
    cycle raised or when the absolute total PnL reaches [max_loss_usdt]; while
    it runs, every cycle settled, their PnL adds up in [total_pnl], the cycle
    count grows by their number and the absolute total stays below the cap. *)
Theorem start_volume_trading_stop (max_loss_usdt : Q) (outcomes : list volume_outcome) :
  outcomes <> [] ->
  forall st,
  let '(st', stopped) := start_volume_trading max_loss_usdt st outcomes in
  (stopped = true -> In VolumeRaised outcomes \/ max_loss_usdt <= Qabs (v_total_pnl st')) /\
  (stopped = false ->
     Forall (fun o => volume_settled o = true) outcomes /\
     v_total_pnl st' == v_total_pnl st + fold_right (fun o acc => volume_cycle_pnl o + acc) 0 outcomes /\
     v_cycles_completed st' = (v_cycles_completed st + List.length outcomes)%nat /\
     Qabs (v_total_pnl st') < max_loss_usdt).
Proof.
  induction outcomes as [|o rest IH]; intros Hne st; [congruence|].
  cbn [start_volume_trading].
  unfold run_volume_trading_cycle, py_abs.
  destruct (Qle_bool max_loss_usdt (Qabs (v_total_pnl st))) eqn:Hpre.
  - apply Qle_bool_iff in Hpre. split; [intros _; right; exact Hpre|discriminate].
  - destruct o as [|before after].
    + split; [intros _; left; left; reflexivity|discriminate].
    + cbn [v_total_pnl v_cycles_completed].
      destruct (Qle_bool max_loss_usdt (Qabs (v_total_pnl st + (after - before)))) eqn:Hpost.
      * apply Qle_bool_iff in Hpost. split; [intros _; right; exact Hpost|discriminate].
      * apply Qle_bool_false_lt in Hpost.
        destruct rest as [|o' rest'].
        -- cbn [start_volume_trading]. split; [discriminate|intros _].
           cbn -[Qabs]. repeat split.
           ++ constructor; [reflexivity|constructor].
           ++ ring.
           ++ lia.
           ++ exact Hpost.
        -- specialize (IH ltac:(discriminate)
                         (mkVolumeState (v_total_pnl st + (after - before))
                                        (S (v_cycles_completed st)))).
           destruct (start_volume_trading _ _ (o' :: rest')) as [st' stopped].
           destruct IH as [IH1 IH2]. split.
           ++ intro Hs. destruct (IH1 Hs) as [H|H]; [left; right; exact H|right; exact H].
           ++ intro Hs. destruct (IH2 Hs) as (F & T & C & L). cbn [v_total_pnl v_cycles_completed] in T, C.
              repeat split.
              ** constructor; [reflexivity|exact F].
              ** rewrite T. cbn [fold_right volume_cycle_pnl]. ring.
              ** rewrite C. cbn [List.length]. lia.
              ** exact L.
Qed.

(** X8: [setup_trading_environment] never disables hedge mode; it enables it
    exactly when hedge mode is asked and the account reports it off; it checks
    the mode exactly when hedge mode is asked; and it succeeds exactly when
    its last request sets the leverage and that request succeeds. *)
Theorem setup_trading_environment_requests (a : SetupAnswers) (symbol : string)
    (leverage : Z) (hedge_mode : bool) :
  let '(r, issued) := setup_trading_environment a symbol leverage hedge_mode in
  ~ In (SetHedgeMode false) issued /\
  (In (SetHedgeMode true) issued <-> hedge_mode = true /\ a_check_hedge_mode a = Ok false) /\
  (In CheckHedgeMode issued <-> hedge_mode = true) /\
  (r = Ok tt <-> exists pre, issued = pre ++ [SetLeverage symbol leverage] /\
                 a_set_leverage a = Ok tt).
Proof.
  unfold setup_trading_environment.
  destruct hedge_mode;
    [destruct (a_check_hedge_mode a) as [[|]|e] eqn:Ec;
       [| destruct (a_set_hedge_mode a) as [[]|e'] eqn:Eh |] | ];
    cbn; try destruct (a_set_leverage a) as [[]|e''] eqn:El;
    repeat split; unfold not; intros;
    repeat match goal with
      | H : _ \/ _ |- _ => destruct H
      | H : _ /\ _ |- _ => destruct H
      | H : exists _, _ |- _ => destruct H
      | H : False |- _ => contradiction
      | H : ?l = ?pre ++ [?x] |- _ =>
          apply (f_equal (fun zs => last zs CheckHedgeMode)) in H; rewrite last_last in H;
          simpl in H
      end;
    try discriminate; try congruence; try (simpl; tauto);
    try first [ exists []; split; reflexivity
          | exists [CheckHedgeMode]; split; reflexivity
          | exists [CheckHedgeMode; SetHedgeMode true]; split; reflexivity ].
Qed.

Lemma close_each_orders (W : World) (c : client) (symbol : string) (positions : list PositionRisk) :
  forall st, exists rest,
    log (snd (close_each W c symbol positions st)) = log st ++ rest /\
    (exists later, closing_orders c symbol positions = placed_orders rest ++ later) /\
    (Forall (fun ev => ev_failed ev = false) rest ->
       placed_orders rest = closing_orders c symbol positions).
Proof.
  induction positions as [|pos ps IH]; intro st.
  - exists []. cbn. rewrite app_nil_r. split; [reflexivity|].
    split; [exists []; reflexivity|reflexivity].
  - cbn [close_each]. unfold bind at 1.
    destruct pos as [[a|] side pnl|].
    + unfold close_one. cbn [closing_orders].
      destruct (Qeq_bool a 0).
      * apply IH.
      * unfold bind, place_order, request.
        set (cs := match (0 ?= a)%Q with Lt => "SELL"%string | _ => "BUY"%string end).
        set (ev := fun r => EvPlaceOrder c symbol cs side (Qabs a) r).
        destruct (w_place_order W c (calls st) symbol cs side (Qabs a)) as [x|e] eqn:Er.
        -- destruct (IH (emit (ev (Ok x)) st)) as (rest & E & [later P] & F).
           exists (ev (Ok x) :: rest). cbn [ret fst snd]. rewrite E.
           change (placed_orders (ev (Ok x) :: rest))
             with ((c, symbol, cs, side, Qabs a) :: placed_orders rest).
           split.
           ++ unfold emit. cbn [log]. rewrite <- app_assoc. reflexivity.
           ++ split.
              ** exists later. rewrite P. reflexivity.
              ** intro Hf. inversion Hf; subst. rewrite F by assumption. reflexivity.
        -- exists [ev (Err e)]. cbn [fst snd raise].
           change (placed_orders [ev (Err e)]) with [(c, symbol, cs, side, Qabs a)].
           split; [reflexivity|]. split.
           ++ exists (closing_orders c symbol ps). reflexivity.
           ++ intro Hf. inversion Hf. discriminate.
    + exists []. cbn. rewrite app_nil_r. split; [reflexivity|].
      split; [exists []; reflexivity|reflexivity].
    + apply IH.
Qed.

(** X9: once the positions are read, [close_positions] places closing orders
    in the order of the positions, each the opposite side of a non-zero amount
    for its absolute value; the orders placed are a prefix of these, and all
    of them when no order fails. *)
Theorem close_positions_orders (W : World) (c : client) (symbol : string) (silent : bool)
    (st : State) (positions : list PositionRisk) :
  w_position_risk W c (calls st) symbol = Ok positions ->
  exists rest,
    log (snd (close_positions W c symbol silent st)) = log st ++ rest /\
    (exists later, closing_orders c symbol positions = placed_orders rest ++ later) /\
    (Forall (fun ev => ev_failed ev = false) rest ->
       placed_orders rest = closing_orders c symbol positions).
Proof.
  intro Hr. unfold close_positions, try_except, bind at 1, get_position_risk, request.
  rewrite Hr.
  set (st1 := emit (EvPositionRisk c symbol (Ok positions)) st).
  unfold bind at 1.
  destruct (close_each_orders W c symbol positions st1) as (rest & E & [later P] & F).
  destruct (close_each W c symbol positions st1) as [[u|e] st2] eqn:Ec; cbn in E.
  - destruct silent; cbn.
    + exists (EvPositionRisk c symbol (Ok positions) :: rest).
      rewrite E. cbn. split; [rewrite <- app_assoc; reflexivity|].
      split; [exists later; exact P|].
      intro Hf. inversion Hf; subst. apply F. assumption.
    + exists (EvPositionRisk c symbol (Ok positions) :: rest ++ [EvPrint MsgPositionsClosed]).
      rewrite E. cbn. split; [rewrite <- !app_assoc; reflexivity|].
      unfold placed_orders. rewrite flat_map_app. cbn. rewrite app_nil_r.
      split; [exists later; exact P|].
      intro Hf. inversion Hf; subst. apply F.
      apply Forall_app in H2. apply H2.
  - cbn. exists (EvPositionRisk c symbol (Ok positions) :: rest ++ [EvPrint MsgErrorClosing]).
    rewrite E. cbn. split; [rewrite <- !app_assoc; reflexivity|].
    unfold placed_orders. rewrite flat_map_app. cbn. rewrite app_nil_r.
    split; [exists later; exact P|].
    intro Hf. inversion Hf; subst. apply F.
    apply Forall_app in H2. apply H2.
Qed.

(** *** [asyncio.gather] of two coroutines *)

Section Gather.
Variable W : World.
Variable P : event -> Prop.

Lemma run_task_appends (t : task) :
  task_appends P t -> forall st, exists rest, log (run_task t st) = log st ++ rest /\ Forall P rest.
Proof.
  induction t as [|resume IH|t IH st0] using task_mut
    with (P0 := fun r => task_appends P (resumed_next r) ->
                forall st, exists rest, log (run_task (resumed_next r) st) = log st ++ rest /\
                                   Forall P rest).
  - intros _ st. exists []. rewrite app_nil_r. split; [reflexivity|constructor].
  - intros H st. simpl.
    destruct (H st) as (rest1 & E1 & F1 & T1).
    specialize (IH st T1).
    destruct (resume st) as [t' st'] eqn:Er. simpl in *.
    destruct (IH st') as (rest2 & E2 & F2).
    exists (rest1 ++ rest2). rewrite E2, E1, app_assoc. split; [reflexivity|].
    apply Forall_app; split; assumption.
  - exact IH.
Qed.

Lemma gather_appends (t1 : task) :
  task_appends P t1 -> forall t2, task_appends P t2 ->
  forall st, exists rest, log (gather W t1 t2 st) = log st ++ rest /\ Forall P rest.
Proof.
  induction t1 as [|resume1 IH1|t IH st0] using task_mut
    with (P0 := fun r => task_appends P (resumed_next r) -> forall t2, task_appends P t2 ->
                forall st, exists rest, log (gather W (resumed_next r) t2 st) = log st ++ rest /\
                                   Forall P rest).
  - intros _ t2 H2 st. apply run_task_appends, H2.
  - intros H1 t2.
    induction t2 as [|resume2 IH2|t IH st0] using task_mut
      with (P0 := fun r => task_appends P (resumed_next r) ->
                  forall st, exists rest,
                    log (gather W (TaskAwait resume1) (resumed_next r) st) = log st ++ rest /\
                    Forall P rest).
    + intros _ st. apply run_task_appends, H1.
    + intros H2 st.
      change (gather W (TaskAwait resume1) (TaskAwait resume2) st) with
        (if w_gather W (calls st) then
           let 'Resumed t1' st' := resume1 st in gather W t1' (TaskAwait resume2) st'
         else
           let 'Resumed t2' st' := resume2 st in gather W (TaskAwait resume1) t2' st').
      destruct (w_gather W (calls st)).
      * destruct (H1 st) as (rest1 & E1 & F1 & T1).
        specialize (IH1 st T1 (TaskAwait resume2) H2).
        destruct (resume1 st) as [t' st'] eqn:Er. simpl in *.
        destruct (IH1 st') as (rest2 & E2 & F2).
        exists (rest1 ++ rest2). rewrite E2, E1, app_assoc. split; [reflexivity|].
        apply Forall_app; split; assumption.
      * destruct (H2 st) as (rest1 & E1 & F1 & T2).
        specialize (IH2 st T2).
        destruct (resume2 st) as [t' st'] eqn:Er. simpl in *.
        destruct (IH2 st') as (rest2 & E2 & F2).
        exists (rest1 ++ rest2). rewrite E2, E1, app_assoc. split; [reflexivity|].
        apply Forall_app; split; assumption.
    + exact IH.
  - exact IH.
Qed.

Variable Q : event -> Prop.

Lemma gather_step (r1 r2 : State -> resumed) (st : State) :
  gather W (TaskAwait r1) (TaskAwait r2) st =
  if w_gather W (calls st) then
    let 'Resumed t1' st' := r1 st in gather W t1' (TaskAwait r2) st'
  else
    let 'Resumed t2' st' := r2 st in gather W (TaskAwait r1) t2' st'.
Proof. reflexivity. Qed.

Lemma first_then_appends (r : State -> resumed) (st : State) :
  task_appends P (TaskAwait r) -> first_appends Q (TaskAwait r) ->
  exists rest, log (resumed_state (r st)) = log st ++ rest /\ Forall P rest /\ Exists Q rest /\
               task_appends P (resumed_next (r st)).
Proof.
  intros H F. destruct (H st) as (rest & E & Fa & T). destruct (F st) as (ev & rest' & E' & Qe).
  exists rest. rewrite E in E'. apply app_inv_head in E'. subst rest.
  repeat split; auto.
Qed.

Lemma gather_first1 (r1 : State -> resumed) :
  task_appends P (TaskAwait r1) -> first_appends Q (TaskAwait r1) ->
  forall t2, task_appends P t2 ->
  forall st, exists rest, log (gather W (TaskAwait r1) t2 st) = log st ++ rest /\
                     Forall P rest /\ Exists Q rest.
Proof.
  intros H1 F1 t2.
  induction t2 as [|resume2 IH2|t IH st0] using task_mut
    with (P0 := fun r => task_appends P (resumed_next r) ->
                forall st, exists rest,
                  log (gather W (TaskAwait r1) (resumed_next r) st) = log st ++ rest /\
                  Forall P rest /\ Exists Q rest).
  - intros _ st. simpl.
    destruct (first_then_appends r1 st H1 F1) as (rest1 & E1 & Fa1 & Ex1 & T1).
    destruct (r1 st) as [t' st'] eqn:Er. simpl in *.
    destruct (run_task_appends t' T1 st') as (rest2 & E2 & F2).
    exists (rest1 ++ rest2). rewrite E2, E1, app_assoc.
    split; [reflexivity|split; [apply Forall_app; auto|apply Exists_app; auto]].
  - intros H2 st. rewrite gather_step. destruct (w_gather W (calls st)).
    + destruct (first_then_appends r1 st H1 F1) as (rest1 & E1 & Fa1 & Ex1 & T1).
      destruct (r1 st) as [t' st'] eqn:Er. simpl in *.
      destruct (gather_appends t' T1 (TaskAwait resume2) H2 st') as (rest2 & E2 & F2).
      exists (rest1 ++ rest2). rewrite E2, E1, app_assoc.
      split; [reflexivity|split; [apply Forall_app; auto|apply Exists_app; auto]].
    + destruct (H2 st) as (rest1 & E1 & F1' & T2).
      specialize (IH2 st T2).
      destruct (resume2 st) as [t' st'] eqn:Er. simpl in *.
      destruct (IH2 st') as (rest2 & E2 & F2 & Ex2).
      exists (rest1 ++ rest2). rewrite E2, E1, app_assoc.
      split; [reflexivity|split; [apply Forall_app; auto|apply Exists_app; auto]].
  - exact IH.
Qed.

Lemma gather_first2 (r2 : State -> resumed) :
  task_appends P (TaskAwait r2) -> first_appends Q (TaskAwait r2) ->
  forall t1, task_appends P t1 ->
  forall st, exists rest, log (gather W t1 (TaskAwait r2) st) = log st ++ rest /\
                     Forall P rest /\ Exists Q rest.
Proof.
  intros H2 F2 t1.
  induction t1 as [|resume1 IH1|t IH st0] using task_mut
    with (P0 := fun r => task_appends P (resumed_next r) ->
                forall st, exists rest,
                  log (gather W (resumed_next r) (TaskAwait r2) st) = log st ++ rest /\
                  Forall P rest /\ Exists Q rest).
  - intros _ st. simpl.
    destruct (first_then_appends r2 st H2 F2) as (rest1 & E1 & Fa1 & Ex1 & T2).
    destruct (r2 st) as [t' st'] eqn:Er. simpl in *.
    destruct (run_task_appends t' T2 st') as (rest2 & E2 & F2').
    exists (rest1 ++ rest2). rewrite E2, E1, app_assoc.
    split; [reflexivity|split; [apply Forall_app; auto|apply Exists_app; auto]].
  - intros H1 st. rewrite gather_step. destruct (w_gather W (calls st)).
    + destruct (H1 st) as (rest1 & E1 & F1' & T1).
      specialize (IH1 st T1).
      destruct (resume1 st) as [t' st'] eqn:Er. simpl in *.
      destruct (IH1 st') as (rest2 & E2 & F2' & Ex2).
      exists (rest1 ++ rest2). rewrite E2, E1, app_assoc.
      split; [reflexivity|split; [apply Forall_app; auto|apply Exists_app; auto]].
    + destruct (first_then_appends r2 st H2 F2) as (rest1 & E1 & Fa1 & Ex1 & T2).
      destruct (r2 st) as [t' st'] eqn:Er. simpl in E1, T2. cbv beta iota.
      destruct (gather_appends (TaskAwait resume1) H1 t' T2 st') as (rest2 & E2 & F2').
      exists (rest1 ++ rest2). rewrite E2, E1, app_assoc.
      split; [reflexivity|split; [apply Forall_app; auto|apply Exists_app; auto]].
  - exact IH.
Qed.
End Gather.

(** The silent [close_positions] coroutine appends no success message, and
    its first step requests the account's positions. *)

Lemma close_task_from_appends (W : World) (c : client) (symbol : string)
    (positions : list PositionRisk) (st : State) :
  exists rest, log (resumed_state (close_task_from W c symbol true positions st)) = log st ++ rest /\
               Forall not_success rest /\
               task_appends not_success (resumed_next (close_task_from W c symbol true positions st)).
Proof.
  revert st. induction positions as [|pos rest IH]; intros st.
  - exists []. rewrite app_nil_r. simpl. auto.
  - destruct pos as [[pos_amt|] side u|]; simpl.
    + destruct (Qeq_bool pos_amt 0); [apply IH|].
      exists []. rewrite app_nil_r. split; [reflexivity|split; [constructor|]].
      simpl. intros st'.
      unfold place_order, request.
      match goal with |- context [w_place_order W c ?n ?s ?sd ?ps ?q] =>
        destruct (w_place_order W c n s sd ps q) as [o|e] end; simpl.
      * match goal with |- context [close_task_from W c symbol true rest ?s] =>
          destruct (IH s) as (rest' & E & F & T) end.
        rewrite E. simpl. rewrite <- app_assoc. eexists.
        split; [reflexivity|]. split; [constructor; [discriminate|exact F]|exact T].
      * eexists. rewrite <- app_assoc. split; [reflexivity|].
        split; [repeat constructor; discriminate|exact I].
    + eexists. split; [reflexivity|]. split; [repeat constructor; discriminate|exact I].
    + apply IH.
Qed.

Lemma close_positions_task_appends (W : World) (c : client) (symbol : string) :
  task_appends not_success (close_positions_task W c symbol true).
Proof.
  simpl. intros st. unfold get_position_risk, request.
  destruct (w_position_risk W c (calls st) symbol) as [positions|e]; simpl.
  - destruct (close_task_from_appends W c symbol positions (emit (EvPositionRisk c symbol (Ok positions)) st))
      as (rest & E & F & T).
    exists (EvPositionRisk c symbol (Ok positions) :: rest). rewrite E. simpl. rewrite <- app_assoc.
    split; [reflexivity|]. split; [constructor; [discriminate|exact F]|exact T].
  - eexists. rewrite <- app_assoc. split; [reflexivity|].
    split; [repeat constructor; discriminate|exact I].
Qed.

Lemma close_positions_task_first (W : World) (c : client) (symbol : string) :
  first_appends (fun ev => exists r, ev = EvPositionRisk c symbol r)
                (close_positions_task W c symbol true).
Proof.
  simpl. intros st. unfold get_position_risk, request.
  destruct (w_position_risk W c (calls st) symbol) as [positions|e]; simpl.
  - destruct (close_task_from_appends W c symbol positions (emit (EvPositionRisk c symbol (Ok positions)) st))
      as (rest & E & F & T).
    exists (EvPositionRisk c symbol (Ok positions)), rest. rewrite E. simpl. rewrite <- app_assoc.
    split; [reflexivity|eexists; reflexivity].
  - do 2 eexists. rewrite <- app_assoc. split; [reflexivity|eexists; reflexivity].
Qed.

(** Both gathered closes request their account's positions, and neither
    prints the success message. *)
Lemma close_all_positions_log (W : World) (symbol : string) (st : State) :
  fst (close_all_positions W symbol st) = Ok tt /\
  exists rest,
    log (snd (close_all_positions W symbol st)) = log st ++ rest ++ [EvPrint MsgAllClosed] /\
    (exists r1, In (EvPositionRisk Client1 symbol r1) rest) /\
    (exists r2, In (EvPositionRisk Client2 symbol r2) rest) /\
    ~ In (EvPrint MsgPositionsClosed) rest.
Proof.
  unfold close_all_positions. split; [reflexivity|].
  pose proof (close_positions_task_appends W Client1 symbol) as A1.
  pose proof (close_positions_task_appends W Client2 symbol) as A2.
  pose proof (close_positions_task_first W Client1 symbol) as F1.
  pose proof (close_positions_task_first W Client2 symbol) as F2.
  generalize dependent (close_positions_task W Client2 symbol true).
  generalize dependent (close_positions_task W Client1 symbol true).
  intros [|r1] A1 F1 [|r2] A2 F2; try contradiction.
  destruct (gather_first1 W not_success _ r1 A1 F1 (TaskAwait r2) A2 st)
    as (rest & E & Fa & Ex1).
  destruct (gather_first2 W not_success _ r2 A2 F2 (TaskAwait r1) A1 st)
    as (rest' & E' & _ & Ex2).
  rewrite E in E'. apply app_inv_head in E'. subst rest'.
  exists rest. unfold print. cbn [snd log]. rewrite E, app_assoc. split; [reflexivity|].
  apply Exists_exists in Ex1 as (ev1 & I1 & r1' & ->).
  apply Exists_exists in Ex2 as (ev2 & I2 & r2' & ->).
  split; [eauto|]. split; [eauto|].
  intros I. rewrite Forall_forall in Fa. exact (Fa _ I eq_refl).
Qed.

(** Run alone, the [close_positions] coroutine ends in the state of
    [close_positions]. *)
Lemma close_task_from_run (W : World) (c : client) (symbol : string) (silent : bool)
    (positions : list PositionRisk) (st : State) :
  run_task (resumed_next (close_task_from W c symbol silent positions st))
           (resumed_state (close_task_from W c symbol silent positions st))
  = snd (try_except (let* _ := close_each W c symbol positions in
                     if silent then ret tt else print MsgPositionsClosed)
                    (fun _ => print MsgErrorClosing) st).
Proof.
  revert st. induction positions as [|pos rest IH]; intros st.
  - destruct silent; reflexivity.
  - destruct pos as [[pos_amt|] side u|]; simpl.
    + destruct (Qeq_bool pos_amt 0); [apply IH|].
      simpl. unfold place_order, request, bind, try_except.
      match goal with |- context [w_place_order W c ?n ?s ?sd ?ps ?q] =>
        destruct (w_place_order W c n s sd ps q) as [o|e] end; simpl.
      * match goal with |- context [close_task_from W c symbol silent rest ?s] => specialize (IH s); destruct (close_task_from W c symbol silent rest s); simpl in IH; rewrite IH; reflexivity end.
      * reflexivity.
    + reflexivity.
    + apply IH.
Qed.

Lemma close_positions_task_run (W : World) (c : client) (symbol : string) (silent : bool)
    (st : State) :
  run_task (close_positions_task W c symbol silent) st = snd (close_positions W c symbol silent st).
Proof.
  simpl. unfold close_positions, get_position_risk, request, try_except, bind.
  destruct (w_position_risk W c (calls st) symbol) as [positions|e]; simpl.
  - pose proof (close_task_from_run W c symbol silent positions
                  (emit (EvPositionRisk c symbol (Ok positions)) st)) as H.
    destruct (close_task_from W c symbol silent positions _) as [t' st'].
    simpl in H. rewrite H. unfold try_except, bind. reflexivity.
  - reflexivity.
Qed.

(** X10: [close_all_positions] never raises; whatever the schedule of the
    gathered coroutines, both accounts' positions are requested, the success
    message of [close_positions] is never printed, and the final message
    comes last. *)
Theorem close_all_positions_both_accounts (W : World) (symbol : string) (st : State) :
  fst (close_all_positions W symbol st) = Ok tt /\
  exists rest,
    log (snd (close_all_positions W symbol st)) = log st ++ rest ++ [EvPrint MsgAllClosed] /\
    (exists r1, In (EvPositionRisk Client1 symbol r1) rest) /\
    (exists r2, In (EvPositionRisk Client2 symbol r2) rest) /\
    ~ In (EvPrint MsgPositionsClosed) rest.
Proof. apply close_all_positions_log. Qed.

(** X11: for a non-zero leverage, when the first failure of
    [open_opposite_positions] is an order, the call raises that error after
    the positions of both accounts were requested by [close_all_positions],
    whose final message ends the log. *)
Theorem open_opposite_positions_cleanup (W : World) (calc : PositionCalculator)
    (symbol : string) (leverage : Z) (n : nat) :
  (leverage <> 0)%Z ->
  let res := open_opposite_positions W calc symbol leverage (init_state n) in
  forall pre c sym side position_side quantity e post,
  first_failure (log (snd res))
    = Some (pre, EvPlaceOrder c sym side position_side quantity (Err e), post) ->
  fst res = Err e /\
  exists rest, post = rest ++ [EvPrint MsgAllClosed] /\
    (exists r1, In (EvPositionRisk Client1 symbol r1) rest) /\
    (exists r2, In (EvPositionRisk Client2 symbol r2) rest) /\
    ~ In (EvPrint MsgPositionsClosed) rest.
Proof.
  intros Hlev res. unfold res. clear res.
  intros pre c sym side position_side quantity e post.
  unfold open_opposite_positions.
  assert (Hz : Z.eqb leverage 0 = false) by (apply Z.eqb_neq; exact Hlev).
  rewrite Hz.
  pose proof (close_all_positions_log W symbol) as HC.
  set (CA := close_all_positions W symbol) in *.
  clearbody CA.
  unfold open_leg, size_position, get_usdt_balance, get_account_balance, get_symbol_info,
    get_market_prices, get_orderbook, random_choice, place_order, request, bind, ret, raise,
    try_except, emit.
  repeat (simpl; match goal with
    | |- context [CA ?s] =>
        let R := fresh "R" in let rest := fresh "rest" in
        let E := fresh "E" in let I1 := fresh "I" in let I2 := fresh "I" in
        let N := fresh "N" in
        destruct (HC s) as [R (rest & E & I1 & I2 & N)];
        destruct (CA s) as [? ?]; simpl in E, R; subst
    | |- context [match ?x with Ok _ => _ | Err _ => _ end] => destruct x eqn:?
    | |- context [match ?x with Some _ => _ | None => _ end] => destruct x eqn:?
    | |- context [match ?x with [] => _ | _ :: _ => _ end] => destruct x eqn:?
    | |- context [if ?b then _ else _] => destruct b eqn:?
    | |- context [match ?x with (_, _) => _ end] => is_var x; destruct x eqn:?
    end).
  all: simpl; intro Hf; try discriminate.
  all: match goal with E : log ?s = _ |- _ => rewrite E in Hf end.
  all: simpl in Hf; inversion Hf; subst.
  all: split; [reflexivity|eauto].
Qed.


(** X12: [open_hedged_positions] places no order and closes nothing unless it
    read a non-zero balance, symbol info, a non-empty book with a non-zero mid
    price and a non-zero step size. *)
Theorem open_hedged_positions_guard (W : World) (calc : PositionCalculator)
    (symbol : string) (leverage : Z) (n : nat) :
  let st' := snd (open_hedged_positions W calc symbol leverage (init_state n)) in
  (placed_orders (log st') = [] /\ forall c s r, ~ In (EvPositionRisk c s r) (log st')) \/
  exists l info best_bid bids best_ask asks b rest,
    log st' = EvBalance Client1 (Ok l) :: EvSymbolInfo Client1 symbol (Ok (Some info)) ::
              EvOrderbook Client1 symbol (Ok (best_bid :: bids, best_ask :: asks)) ::
              EvChoice b :: rest /\
    Qeq_bool (usdt_of l) 0 = false /\
    Qeq_bool ((best_bid + best_ask) / 2) 0 = false /\
    Qeq_bool (step_size info) 0 = false.
Proof.
  intro st'. unfold st'. clear st'.
  unfold open_hedged_positions.
  pose proof (close_positions_silent_log W Client1 symbol) as HC.
  set (CP := close_positions W Client1 symbol true) in *.
  clearbody CP.
  unfold size_position, get_usdt_balance, get_account_balance, get_symbol_info,
    get_market_prices, get_orderbook, random_choice, place_order, request, bind, ret, raise,
    try_except, emit.
  repeat (simpl; match goal with
    | |- context [CP ?s] =>
        let r := fresh "r" in let rest := fresh "rest" in
        let E := fresh "E" in let N := fresh "N" in
        destruct (HC s) as [r [rest [E N]]];
        destruct (CP s) as [? ?]; simpl in E
    | |- context [match ?x with Ok _ => _ | Err _ => _ end] => destruct x eqn:?
    | |- context [match ?x with Some _ => _ | None => _ end] => destruct x eqn:?
    | |- context [match ?x with [] => _ | _ :: _ => _ end] => destruct x eqn:?
    | |- context [if ?b then _ else _] => destruct b eqn:?
    | |- context [match ?x with (_, _) => _ end] => is_var x; destruct x eqn:?
    end).
  all: cbn [fst snd log].
  all: try (match goal with E : log ?s = _ |- _ => rewrite E end; simpl).
  all: first
    [ left; split; [reflexivity|intros c0 s0 r0 H; simpl in H;
                                repeat match type of H with _ \/ _ => destruct H as [H|H] end;
                                solve [discriminate | contradiction]]
    | right; do 8 eexists; split; [reflexivity|]; split; [eassumption|];
      split; eassumption ].
Qed.

(** X13: a successful [open_hedged_positions] places exactly two orders on the
    first account, a BUY LONG and a SELL SHORT of the same computed quantity,
    in the drawn order, and returns that quantity with each fill price. *)
Theorem open_hedged_positions_success (W : World) (calc : PositionCalculator)
    (symbol : string) (leverage : Z) (n : nat) (h : HedgeResult) (st' : State) :
  open_hedged_positions W calc symbol leverage (init_state n) = (Ok h, st') ->
  exists (l : list BalanceEntry) (info : SymbolInfo) (best_bid : Q) (bids : list Q)
         (best_ask : Q) (asks : list Q) (open_long_first : bool) (r_long r_short : option Q),
    let mid_price := (best_bid + best_ask) / 2 in
    let quantity :=
      calculate_position_size calc info mid_price (usdt_of l) leverage false in
    let long_order := EvPlaceOrder Client1 symbol "BUY" "LONG" quantity (Ok r_long) in
    let short_order := EvPlaceOrder Client1 symbol "SELL" "SHORT" quantity (Ok r_short) in
    log st' =
      [EvBalance Client1 (Ok l);
       EvSymbolInfo Client1 symbol (Ok (Some info));
       EvOrderbook Client1 symbol (Ok (best_bid :: bids, best_ask :: asks));
       EvChoice open_long_first] ++
      (if open_long_first then [long_order; short_order] else [short_order; long_order]) /\
    h = mkHedgeResult quantity (avg_price r_long mid_price) (avg_price r_short mid_price).
Proof.
  unfold open_hedged_positions.
  set (CP := close_positions W Client1 symbol true). clearbody CP.
  unfold size_position, get_usdt_balance, get_account_balance, get_symbol_info,
    get_market_prices, get_orderbook, random_choice, place_order, request, bind, ret,
    raise, try_except, emit.
  repeat (simpl; match goal with
    | |- context [CP ?s] => destruct (CP s) as [[? | ?] ?]
    | |- context [match ?x with Ok _ => _ | Err _ => _ end] => destruct x eqn:?
    | |- context [match ?x with Some _ => _ | None => _ end] => destruct x eqn:?
    | |- context [match ?x with [] => _ | _ :: _ => _ end] => destruct x eqn:?
    | |- context [if ?b then _ else _] => destruct b eqn:?
    | |- context [match ?x with (_, _) => _ end] => is_var x; destruct x eqn:?
    end).
  all: intro H; try discriminate.
  all: inversion H; subst; clear H.
  all: do 6 eexists.
  all: first [ exists true; do 2 eexists; simpl; split; reflexivity
             | exists false; do 2 eexists; simpl; split; reflexivity ].
Qed.

(** X14: a successful [open_single_position] places exactly one order, BUY
    LONG when the side is [LONG] and SELL SHORT for any other side, and
    returns the quantity, the fill price and the side as given. *)
Theorem open_single_position_success (W : World) (calc : PositionCalculator)
    (symbol side : string) (leverage : Z) (n : nat) (p : PositionInfo) (st' : State) :
  open_single_position W calc symbol side leverage (init_state n) = (Ok p, st') ->
  exists (l : list BalanceEntry) (info : SymbolInfo) (best_bid : Q) (bids : list Q)
         (best_ask : Q) (asks : list Q) (r : option Q),
    let mid_price := (best_bid + best_ask) / 2 in
    let quantity :=
      calculate_position_size calc info mid_price (usdt_of l) leverage false in
    log st' =
      [EvBalance Client1 (Ok l);
       EvSymbolInfo Client1 symbol (Ok (Some info));
       EvOrderbook Client1 symbol (Ok (best_bid :: bids, best_ask :: asks));
       if String.eqb side "LONG" then EvPlaceOrder Client1 symbol "BUY" "LONG" quantity (Ok r)
       else EvPlaceOrder Client1 symbol "SELL" "SHORT" quantity (Ok r)] /\
    p = mkPositionInfo quantity (avg_price r mid_price) side.
Proof.
  unfold open_single_position.
  set (CP := close_positions W Client1 symbol true). clearbody CP.
  unfold size_position, get_usdt_balance, get_account_balance, get_symbol_info,
    get_market_prices, get_orderbook, place_order, request, bind, ret,
    raise, try_except, emit.
  remember (String.eqb side "LONG") as SB eqn:ES.
  repeat (simpl; match goal with
    | |- context [CP ?s] => destruct (CP s) as [[? | ?] ?]
    | |- context [match ?x with Ok _ => _ | Err _ => _ end] => destruct x eqn:?
    | |- context [match ?x with Some _ => _ | None => _ end] => destruct x eqn:?
    | |- context [match ?x with [] => _ | _ :: _ => _ end] => destruct x eqn:?
    | |- context [if ?b then _ else _] => destruct b eqn:?
    | |- context [match ?x with (_, _) => _ end] => is_var x; destruct x eqn:?
    end).
  all: intro H; try discriminate.
  all: inversion H; subst; clear H.
  all: do 7 eexists; simpl.
  all: split; reflexivity.
Qed.

(** X15: when the first failure of [open_single_position] is its order, the
    call raises that error after a silent close of the first account. *)
Theorem open_single_position_cleanup (W : World) (calc : PositionCalculator)
    (symbol side : string) (leverage : Z) (n : nat) :
  let res := open_single_position W calc symbol side leverage (init_state n) in
  forall pre c sym order_side position_side quantity e post,
  first_failure (log (snd res))
    = Some (pre, EvPlaceOrder c sym order_side position_side quantity (Err e), post) ->
  fst res = Err e /\
  exists r rest, post = EvPositionRisk Client1 symbol r :: rest /\
                 ~ In (EvPrint MsgPositionsClosed) rest.
Proof.
  intros res. unfold res. clear res.
  intros pre c sym order_side position_side quantity e post.
  unfold open_single_position.
  pose proof (close_positions_silent_log W Client1 symbol) as HC.
  pose proof (close_positions_returns W Client1 symbol true) as HR.
  set (CP := close_positions W Client1 symbol true) in *.
  clearbody CP.
  unfold size_position, get_usdt_balance, get_account_balance, get_symbol_info,
    get_market_prices, get_orderbook, place_order, request, bind, ret, raise,
    try_except, emit.
  repeat (simpl; match goal with
    | |- context [CP ?s] =>
        let r := fresh "r" in let rest := fresh "rest" in
        let E := fresh "E" in let N := fresh "N" in let R := fresh "R" in
        destruct (HC s) as [r [rest [E N]]]; pose proof (HR s) as R;
        destruct (CP s) as [? ?]; simpl in E, R; subst
    | |- context [match ?x with Ok _ => _ | Err _ => _ end] => destruct x eqn:?
    | |- context [match ?x with Some _ => _ | None => _ end] => destruct x eqn:?
    | |- context [match ?x with [] => _ | _ :: _ => _ end] => destruct x eqn:?
    | |- context [if ?b then _ else _] => destruct b eqn:?
    | |- context [match ?x with (_, _) => _ end] => is_var x; destruct x eqn:?
    end).
  all: simpl; intro H; try discriminate.
  all: match goal with E : log ?s = _ |- _ => rewrite E in H end.
  all: simpl in H; inversion H; subst.
  all: split; [reflexivity|eauto].
Qed.

Lemma get_position_details_status_loop positions ds :
  get_position_details positions = Ok ds ->
  forall total_pnl, status_loop positions total_pnl
    = Ok (fold_left (fun acc p => acc + pd_unrealized_pnl p) ds total_pnl).
Proof.
  revert ds; induction positions as [|[d|] rest IH]; simpl; intros ds H t.
  - injection H as <-; reflexivity.
  - destruct (e_positionAmt d) as [amt|] eqn:EA; simpl in *; [|discriminate].
    destruct (Qeq_bool amt 0); [now apply IH|].
    unfold detail_of in H; rewrite EA in H; simpl in H.
    destruct (e_entryPrice d); simpl in H; [|discriminate].
    destruct (e_unRealizedProfit d) as [pnl|] eqn:EP; simpl in H; [|discriminate].
    destruct (margin_of d); [|discriminate].
    destruct (get_position_details rest) as [ap|] eqn:ER; [|discriminate].
    injection H as <-; simpl. now apply IH.
  - now apply IH.
Qed.

(** X16: when [get_position_details] succeeds, [check_positions_status]
    succeeds with the sum of the unrealized PnL of the positions it returned.
    *)
Theorem check_positions_status_of_details positions ds :
  get_position_details positions = Ok ds ->
  check_positions_status positions = Ok (sum_pnl ds).
Proof.
  intro H; unfold check_positions_status, sum_pnl.
  now apply get_position_details_status_loop.
Qed.

(** X17: the positions returned by [get_position_details] are the entries with
    a non-zero amount, in order, and none has a zero amount. *)
Theorem get_position_details_amounts positions ds :
  get_position_details positions = Ok ds ->
  map pd_amount ds = active_amounts positions /\
  Forall (fun pd => ~ pd_amount pd == 0) ds.
Proof.
  revert ds; induction positions as [|[d|] rest IH]; simpl; intros ds H.
  - injection H as <-; split; [reflexivity|constructor].
  - destruct (e_positionAmt d) as [amt|] eqn:EA; simpl in *; [|discriminate].
    destruct (Qeq_bool amt 0) eqn:EZ; [now apply IH|].
    unfold detail_of in H; rewrite EA in H; simpl in H.
    destruct (e_entryPrice d); simpl in H; [|discriminate].
    destruct (e_unRealizedProfit d); simpl in H; [|discriminate].
    destruct (margin_of d); [|discriminate].
    destruct (get_position_details rest) as [ap|]; [|discriminate].
    injection H as <-; simpl.
    destruct (IH ap eq_refl) as [H1 H2]; split.
    + now rewrite H1.
    + constructor; [|exact H2]. simpl. intro E. apply Qeq_bool_iff in E. congruence.
  - now apply IH.
Qed.

(** X18: [get_position_details] returns no position exactly when every entry
    is not a dict or has a zero amount. *)
Theorem get_position_details_empty positions :
  get_position_details positions = Ok [] <-> Forall inactive positions.
Proof.
  induction positions as [|[d|] rest IH]; simpl; rewrite ?Forall_cons_iff, <- ?IH.
  - split; constructor.
  - unfold inactive. destruct (e_positionAmt d) as [amt|]; simpl.
    + destruct (Qeq_bool amt 0) eqn:EZ.
      * apply Qeq_bool_iff in EZ. tauto.
      * split; intro H.
        -- destruct (detail_of d); [|discriminate].
           destruct (get_position_details rest); discriminate.
        -- destruct H as [Hd _]. apply Qeq_bool_iff in Hd. congruence.
    + split; intro H; [discriminate|]. destruct H; contradiction.
  - simpl. tauto.
Qed.

Lemma add_filter_fields filters f filters' :
  add_filter filters f = Parsed filters' ->
  f_tick_size filters' =
    keep_last (last_filter_value "PRICE_FILTER" "tickSize" [f]) (f_tick_size filters) /\
  f_step_size filters' =
    keep_last (last_filter_value "LOT_SIZE" "stepSize" [f]) (f_step_size filters) /\
  f_min_qty filters' =
    keep_last (last_filter_value "LOT_SIZE" "minQty" [f]) (f_min_qty filters) /\
  f_min_notional filters' =
    keep_last (last_filter_value "MIN_NOTIONAL" "notional" [f]) (f_min_notional filters).
Proof.
  unfold add_filter, jindex, last_filter_value.
  destruct (jget "filterType" f) as [[q|ty]|]; simpl; [| |discriminate].
  - intro H; injection H as <-.
    repeat split; destruct (jget _ f) as [[]|]; reflexivity.
  - destruct (String.eqb ty "PRICE_FILTER") eqn:E1;
      [apply String.eqb_eq in E1; subst; simpl|].
    { destruct (jget "tickSize" f) as [[v|]|]; simpl; intro H; try discriminate.
      injection H as <-; simpl.
      repeat split; try reflexivity; destruct (jget _ f) as [[]|]; reflexivity. }
    destruct (String.eqb ty "LOT_SIZE") eqn:E2;
      [apply String.eqb_eq in E2; subst; simpl|].
    { destruct (jget "stepSize" f) as [[v|]|]; simpl; try discriminate.
      destruct (jget "minQty" f) as [[m|]|]; simpl; intro H; try discriminate.
      injection H as <-; simpl.
      repeat split; try reflexivity; destruct (jget _ f) as [[]|]; reflexivity. }
    destruct (String.eqb ty "MIN_NOTIONAL") eqn:E3;
      [apply String.eqb_eq in E3; subst; simpl|].
    { destruct (jget "notional" f) as [[v|]|]; simpl; intro H; try discriminate.
      injection H as <-; simpl.
      repeat split; try reflexivity; destruct (jget _ f) as [[]|]; reflexivity. }
    intro H; injection H as <-.
    simpl; rewrite ?E1, ?E2, ?E3.
    repeat split; destruct (jget _ f) as [[]|]; reflexivity.
Qed.

Lemma last_filter_value_cons filter_type key f rest :
  last_filter_value filter_type key (f :: rest) =
  keep_last (last_filter_value filter_type key rest)
            (last_filter_value filter_type key [f]).
Proof. reflexivity. Qed.

Lemma keep_last_assoc a b c : keep_last a (keep_last b c) = keep_last (keep_last a b) c.
Proof. destruct a; reflexivity. Qed.

Lemma collect_filters_fields fs filters filters' :
  collect_filters fs filters = Parsed filters' ->
  f_tick_size filters' =
    keep_last (last_filter_value "PRICE_FILTER" "tickSize" fs) (f_tick_size filters) /\
  f_step_size filters' =
    keep_last (last_filter_value "LOT_SIZE" "stepSize" fs) (f_step_size filters) /\
  f_min_qty filters' =
    keep_last (last_filter_value "LOT_SIZE" "minQty" fs) (f_min_qty filters) /\
  f_min_notional filters' =
    keep_last (last_filter_value "MIN_NOTIONAL" "notional" fs) (f_min_notional filters).
Proof.
  revert filters; induction fs as [|f rest IH]; intros filters H; cbn [collect_filters] in H.
  - injection H as <-. repeat split.
  - destruct (add_filter filters f) as [f1| |] eqn:EA; simpl in H; try discriminate.
    destruct (add_filter_fields _ _ _ EA) as (A1 & A2 & A3 & A4).
    destruct (IH _ H) as (B1 & B2 & B3 & B4).
    rewrite !(last_filter_value_cons _ _ f rest), <- !keep_last_assoc.
    rewrite B1, B2, B3, B4, A1, A2, A3, A4. repeat split.
Qed.

(** X19: when [get_symbol_info] returns rules, they come from the first entry
    named [symbol] whose filters give all four values; each value is the one
    of the last filter of its type, and every earlier entry has another name
    or lacks a value. *)
Theorem get_symbol_info_found symbols symbol info :
  get_symbol_info_of symbols symbol = Parsed (Some info) ->
  exists pre s fs post,
    (match symbols with Some l => l | None => [] end) = pre ++ s :: post /\
    s_symbol s = Some (JStr symbol) /\ s_filters s = Some fs /\
    last_filter_value "PRICE_FILTER" "tickSize" fs = Some (tick_size info) /\
    last_filter_value "LOT_SIZE" "stepSize" fs = Some (step_size info) /\
    last_filter_value "LOT_SIZE" "minQty" fs = Some (min_qty info) /\
    last_filter_value "MIN_NOTIONAL" "notional" fs = Some (min_notional info) /\
    (forall s', In s' pre ->
       exists name, s_symbol s' = Some name /\
       (jis name symbol = false \/
        exists fs', s_filters s' = Some fs' /\
          (last_filter_value "PRICE_FILTER" "tickSize" fs' = None \/
           last_filter_value "LOT_SIZE" "stepSize" fs' = None \/
           last_filter_value "LOT_SIZE" "minQty" fs' = None \/
           last_filter_value "MIN_NOTIONAL" "notional" fs' = None))).
Proof.
  unfold get_symbol_info_of.
  generalize (match symbols with Some l => l | None => [] end) as l.
  induction l as [|s rest IH]; simpl; intro H; [discriminate|].
  destruct (s_symbol s) as [name|] eqn:ES; [|discriminate].
  assert (Hrest : find_symbol_info symbol rest = Parsed (Some info) ->
                  (forall s', In s' [s] -> exists name, s_symbol s' = Some name /\
                   (jis name symbol = false \/
                    exists fs', s_filters s' = Some fs' /\
                     (last_filter_value "PRICE_FILTER" "tickSize" fs' = None \/
                      last_filter_value "LOT_SIZE" "stepSize" fs' = None \/
                      last_filter_value "LOT_SIZE" "minQty" fs' = None \/
                      last_filter_value "MIN_NOTIONAL" "notional" fs' = None))) ->
                  exists pre s0 fs post, s :: rest = pre ++ s0 :: post /\
                   s_symbol s0 = Some (JStr symbol) /\ s_filters s0 = Some fs /\
                   last_filter_value "PRICE_FILTER" "tickSize" fs = Some (tick_size info) /\
                   last_filter_value "LOT_SIZE" "stepSize" fs = Some (step_size info) /\
                   last_filter_value "LOT_SIZE" "minQty" fs = Some (min_qty info) /\
                   last_filter_value "MIN_NOTIONAL" "notional" fs = Some (min_notional info) /\
                   (forall s', In s' pre -> exists name, s_symbol s' = Some name /\
                    (jis name symbol = false \/
                     exists fs', s_filters s' = Some fs' /\
                      (last_filter_value "PRICE_FILTER" "tickSize" fs' = None \/
                       last_filter_value "LOT_SIZE" "stepSize" fs' = None \/
                       last_filter_value "LOT_SIZE" "minQty" fs' = None \/
                       last_filter_value "MIN_NOTIONAL" "notional" fs' = None)))).
  { intros Hf Hs.
    destruct (IH Hf) as (pre & s0 & fs & post & E & R1 & R2 & R3 & R4 & R5 & R6 & R7).
    exists (s :: pre), s0, fs, post.
    do 7 (split; [first [simpl; congruence | assumption]|]).
    intros s' [<-|Hin]; [apply Hs; now left | now apply R7]. }
  destruct (jis name symbol) eqn:EJ.
  2: { apply Hrest; [exact H|]. intros s' [<-|[]]. eauto. }
  destruct (s_filters s) as [fs|] eqn:EF; [|discriminate].
  destruct (collect_filters fs no_filters) as [filters| |] eqn:EC; simpl in H; try discriminate.
  destruct (collect_filters_fields _ _ _ EC) as (A1 & A2 & A3 & A4).
  simpl in A1, A2, A3, A4.
  unfold filters_info in H.
  rewrite A1, A2, A3, A4 in H.
  destruct (last_filter_value "PRICE_FILTER" "tickSize" fs) eqn:L1; simpl in H;
  [destruct (last_filter_value "LOT_SIZE" "stepSize" fs) eqn:L2; simpl in H;
   [destruct (last_filter_value "LOT_SIZE" "minQty" fs) eqn:L3; simpl in H;
    [destruct (last_filter_value "MIN_NOTIONAL" "notional" fs) eqn:L4; simpl in H|]|]|].
  - injection H as <-.
    exists [], s, fs, rest. simpl.
    destruct name as [qn|nm]; simpl in EJ; [discriminate|].
    apply String.eqb_eq in EJ; subst nm.
    repeat split; auto. intros _ [].
  - apply Hrest; [exact H|]. intros s' [<-|[]]. eauto 10.
  - apply Hrest; [exact H|]. intros s' [<-|[]]. eauto 10.
  - apply Hrest; [exact H|]. intros s' [<-|[]]. eauto 10.
  - apply Hrest; [exact H|]. intros s' [<-|[]]. eauto 10.
Qed.

(** *** Instances *)

(** Instance of [calculate_position_size_at_floor]. *)
Lemma calculate_position_size_at_floor_witness :
  max_quantity default_calculator 5000 1 10 false <= min_required default_calculator cx_rules 5000 /\
  calculate_position_size default_calculator cx_rules 5000 1 10 false
    = inject_Z (py_round (min_required default_calculator cx_rules 5000 / step_size cx_rules))
      * step_size cx_rules.
Proof.
  assert (H : max_quantity default_calculator 5000 1 10 false
              <= min_required default_calculator cx_rules 5000)
    by (apply Qle_bool_iff; vm_compute; reflexivity).
  split; [exact H|].
  exact (calculate_position_size_at_floor default_calculator cx_rules 5000 1 10 false H).
Defined.

(** Instance of [calculate_position_size_mono_balance]. *)
Lemma calculate_position_size_mono_balance_witness :
  calculate_position_size default_calculator cx_rules 5000 10 10 false
    <= calculate_position_size default_calculator cx_rules 5000 1000 10 false.
Proof.
  apply (calculate_position_size_mono_balance default_calculator cx_rules 5000 10 1000 10 false).
  - reflexivity.
  - reflexivity.
  - apply Qle_bool_iff; vm_compute; reflexivity.
  - lia.
  - apply Qle_bool_iff; vm_compute; reflexivity.
Defined.

(** Instance of [calculate_position_deviation_threshold]. *)
Lemma calculate_position_deviation_threshold_witness :
  (20 <= calculate_position_deviation dev_pos1 100
   <-> 20 * 100 / 100 <= Qabs (pd_unrealized_pnl dev_pos1)) /\
  20 <= calculate_position_deviation dev_pos1 100.
Proof.
  assert (H := calculate_position_deviation_threshold dev_pos1 100 20 ltac:(reflexivity)).
  split; [exact H|]. apply H. apply Qle_bool_iff; vm_compute; reflexivity.
Defined.

(** Instance of [volume_wait_loop_exit]. *)
Lemma volume_wait_loop_exit_witness :
  exists j, volume_wait_loop 60 [(10, -1); (70, -2); (130, 0)] = Some (S j) /\ (j <= 2)%nat /\
    (exists q, nth_error [(10, -1); (70, -2); (130, 0)] j = Some q /\ volume_wait_breaks 60 q) /\
    (forall i q, (i < j)%nat -> nth_error [(10, -1); (70, -2); (130, 0)] i = Some q ->
                 ~ volume_wait_breaks 60 q).
Proof.
  apply (volume_wait_loop_exit 60 120 [(10, -1); (70, -2); (130, 0)] 2 (130, 0)).
  - lia.
  - reflexivity.
  - apply Qle_bool_iff; vm_compute; reflexivity.
Defined.

(** Instance of [start_volume_trading_stop]. *)
Lemma start_volume_trading_stop_witness :
  let '(st', stopped) :=
    start_volume_trading 50 (mkVolumeState 0 0) [VolumeSettled 1000 995; VolumeRaised] in
  (stopped = true -> In VolumeRaised [VolumeSettled 1000 995; VolumeRaised] \/
                     50 <= Qabs (v_total_pnl st')) /\
  (stopped = false ->
     Forall (fun o => volume_settled o = true) [VolumeSettled 1000 995; VolumeRaised] /\
     v_total_pnl st' == 0 + fold_right (fun o acc => volume_cycle_pnl o + acc) 0
                             [VolumeSettled 1000 995; VolumeRaised] /\
     v_cycles_completed st' = (0 + 2)%nat /\
     Qabs (v_total_pnl st') < 50).
Proof.
  exact (start_volume_trading_stop 50 [VolumeSettled 1000 995; VolumeRaised]
           ltac:(discriminate) (mkVolumeState 0 0)).
Defined.

(** Instance of [close_positions_orders]. *)
Lemma close_positions_orders_witness :
  exists rest,
    log (snd (close_positions hedge_world Client1 "BTCUSDT" true (init_state 0)))
      = log (init_state 0) ++ rest /\
    (exists later, closing_orders Client1 "BTCUSDT" [PosDict (Some 25) "LONG" 0]
                   = placed_orders rest ++ later) /\
    (Forall (fun ev => ev_failed ev = false) rest ->
       placed_orders rest = closing_orders Client1 "BTCUSDT" [PosDict (Some 25) "LONG" 0]).
Proof.
  exact (close_positions_orders hedge_world Client1 "BTCUSDT" true (init_state 0)
           [PosDict (Some 25) "LONG" 0] eq_refl).
Defined.


(** Instance of [open_single_position_cleanup]. *)
Lemma open_single_position_cleanup_witness :
  exists pre c sym side position_side quantity e post,
    first_failure (log (snd (open_single_position rejecting_world default_calculator "BTCUSDT"
                               "LONG" 10 (init_state 0))))
      = Some (pre, EvPlaceOrder c sym side position_side quantity (Err e), post) /\
    fst (open_single_position rejecting_world default_calculator "BTCUSDT" "LONG" 10
           (init_state 0)) = Err e /\
    exists r rest, post = EvPositionRisk Client1 "BTCUSDT" r :: rest /\
                   ~ In (EvPrint MsgPositionsClosed) rest.
Proof.
  lazymatch goal with
  | |- exists pre c sym side position_side quantity e post, ?F = _ /\ _ =>
      let v := eval vm_compute in F in
      lazymatch v with
      | Some (?pre, EvPlaceOrder ?c ?sym ?sd ?ps ?q (Err ?e), ?post) =>
          exists pre, c, sym, sd, ps, q, e, post;
          assert (H : F = Some (pre, EvPlaceOrder c sym sd ps q (Err e), post))
            by (vm_compute; reflexivity)
      end
  end.
  split; [exact H|].
  exact (open_single_position_cleanup rejecting_world default_calculator "BTCUSDT" "LONG" 10 0
           _ _ _ _ _ _ _ _ H).
Defined.

(** Instance of [open_hedged_positions_success]. *)
Lemma open_hedged_positions_success_witness :
  exists h st',
  open_hedged_positions dual_world default_calculator "BTCUSDT" 10 (init_state 0) = (Ok h, st') /\
  exists (l : list BalanceEntry) (info : SymbolInfo) (best_bid : Q) (bids : list Q)
         (best_ask : Q) (asks : list Q) (open_long_first : bool) (r_long r_short : option Q),
    let mid_price := (best_bid + best_ask) / 2 in
    let quantity :=
      calculate_position_size default_calculator info mid_price (usdt_of l) 10 false in
    let long_order := EvPlaceOrder Client1 "BTCUSDT" "BUY" "LONG" quantity (Ok r_long) in
    let short_order := EvPlaceOrder Client1 "BTCUSDT" "SELL" "SHORT" quantity (Ok r_short) in
    log st' =
      [EvBalance Client1 (Ok l);
       EvSymbolInfo Client1 "BTCUSDT" (Ok (Some info));
       EvOrderbook Client1 "BTCUSDT" (Ok (best_bid :: bids, best_ask :: asks));
       EvChoice open_long_first] ++
      (if open_long_first then [long_order; short_order] else [short_order; long_order]) /\
    h = mkHedgeResult quantity (avg_price r_long mid_price) (avg_price r_short mid_price).
Proof.
  lazymatch goal with
  | |- exists h st', ?F = (Ok h, st') /\ _ =>
      let v := eval vm_compute in F in
      lazymatch v with
      | (Ok ?a, ?b) =>
          exists a, b;
          assert (H : F = (Ok a, b)) by (vm_compute; reflexivity)
      end
  end.
  split; [exact H|].
  exact (open_hedged_positions_success dual_world default_calculator "BTCUSDT" 10 0 _ _ H).
Defined.

(** Instance of [open_single_position_success]. *)
Lemma open_single_position_success_witness :
  exists p st',
  open_single_position dual_world default_calculator "BTCUSDT" "SHORT" 10 (init_state 0)
    = (Ok p, st') /\
  exists (l : list BalanceEntry) (info : SymbolInfo) (best_bid : Q) (bids : list Q)
         (best_ask : Q) (asks : list Q) (r : option Q),
    let mid_price := (best_bid + best_ask) / 2 in
    let quantity :=
      calculate_position_size default_calculator info mid_price (usdt_of l) 10 false in
    log st' =
      [EvBalance Client1 (Ok l);
       EvSymbolInfo Client1 "BTCUSDT" (Ok (Some info));
       EvOrderbook Client1 "BTCUSDT" (Ok (best_bid :: bids, best_ask :: asks));
       if String.eqb "SHORT" "LONG"
       then EvPlaceOrder Client1 "BTCUSDT" "BUY" "LONG" quantity (Ok r)
       else EvPlaceOrder Client1 "BTCUSDT" "SELL" "SHORT" quantity (Ok r)] /\
    p = mkPositionInfo quantity (avg_price r mid_price) "SHORT".
Proof.
  lazymatch goal with
  | |- exists p st', ?F = (Ok p, st') /\ _ =>
      let v := eval vm_compute in F in
      lazymatch v with
      | (Ok ?a, ?b) =>
          exists a, b;
          assert (H : F = (Ok a, b)) by (vm_compute; reflexivity)
      end
  end.
  split; [exact H|].
  exact (open_single_position_success dual_world default_calculator "BTCUSDT" "SHORT" 10 0
           _ _ H).
Defined.

(** Instance of [check_positions_status_of_details]. *)
Lemma check_positions_status_of_details_witness :
  get_position_details risk_example
    = Ok [mkPositionDetail "LONG" 25 100 3 250; mkPositionDetail "SHORT" (-4) 101 (-1) 40] /\
  check_positions_status risk_example
    = Ok (sum_pnl [mkPositionDetail "LONG" 25 100 3 250; mkPositionDetail "SHORT" (-4) 101 (-1) 40]).
Proof.
  assert (H : get_position_details risk_example
    = Ok [mkPositionDetail "LONG" 25 100 3 250; mkPositionDetail "SHORT" (-4) 101 (-1) 40])
    by reflexivity.
  split; [exact H|]. exact (check_positions_status_of_details _ _ H).
Defined.

(** Instance of [get_position_details_amounts]. *)
Lemma get_position_details_amounts_witness :
  get_position_details risk_example
    = Ok [mkPositionDetail "LONG" 25 100 3 250; mkPositionDetail "SHORT" (-4) 101 (-1) 40] /\
  map pd_amount [mkPositionDetail "LONG" 25 100 3 250; mkPositionDetail "SHORT" (-4) 101 (-1) 40]
    = active_amounts risk_example /\
  Forall (fun pd => ~ pd_amount pd == 0)
    [mkPositionDetail "LONG" 25 100 3 250; mkPositionDetail "SHORT" (-4) 101 (-1) 40].
Proof.
  assert (H : get_position_details risk_example
    = Ok [mkPositionDetail "LONG" 25 100 3 250; mkPositionDetail "SHORT" (-4) 101 (-1) 40])
    by reflexivity.
  split; [exact H|]. exact (get_position_details_amounts _ _ H).
Defined.

(** Instance of [get_symbol_info_found]. *)
Lemma get_symbol_info_found_witness :
  get_symbol_info_of (Some symbols_example) "BTCUSDT"
    = Parsed (Some (mkSymbolInfo (1 # 100) (1 # 1000) (1 # 1000) 5)) /\
  exists pre s fs post,
    symbols_example = pre ++ s :: post /\
    s_symbol s = Some (JStr "BTCUSDT") /\ s_filters s = Some fs /\
    last_filter_value "PRICE_FILTER" "tickSize" fs = Some (1 # 100) /\
    last_filter_value "LOT_SIZE" "stepSize" fs = Some (1 # 1000) /\
    last_filter_value "LOT_SIZE" "minQty" fs = Some (1 # 1000) /\
    last_filter_value "MIN_NOTIONAL" "notional" fs = Some 5 /\
    (forall s', In s' pre ->
       exists name, s_symbol s' = Some name /\
       (jis name "BTCUSDT" = false \/
        exists fs', s_filters s' = Some fs' /\
          (last_filter_value "PRICE_FILTER" "tickSize" fs' = None \/
           last_filter_value "LOT_SIZE" "stepSize" fs' = None \/
           last_filter_value "LOT_SIZE" "minQty" fs' = None \/
           last_filter_value "MIN_NOTIONAL" "notional" fs' = None))).
Proof.
  assert (H : get_symbol_info_of (Some symbols_example) "BTCUSDT"
              = Parsed (Some (mkSymbolInfo (1 # 100) (1 # 1000) (1 # 1000) 5)))
    by (vm_compute; reflexivity).
  split; [exact H|].
  exact (get_symbol_info_found (Some symbols_example) "BTCUSDT" _ H).
Defined.

(** Instance of [open_opposite_positions_cleanup]: on [hedge_world] the
    first order fails and the two closes interleave. *)
Lemma open_opposite_positions_cleanup_witness :
  exists pre c sym side position_side quantity e post,
    first_failure (log (snd (open_opposite_positions hedge_world default_calculator "BTCUSDT" 10
                               (init_state 0))))
      = Some (pre, EvPlaceOrder c sym side position_side quantity (Err e), post) /\
    fst (open_opposite_positions hedge_world default_calculator "BTCUSDT" 10 (init_state 0))
      = Err e /\
    exists rest, post = rest ++ [EvPrint MsgAllClosed] /\
      (exists r1, In (EvPositionRisk Client1 "BTCUSDT" r1) rest) /\
      (exists r2, In (EvPositionRisk Client2 "BTCUSDT" r2) rest) /\
      ~ In (EvPrint MsgPositionsClosed) rest.
Proof.
  lazymatch goal with
  | |- exists pre c sym side position_side quantity e post, ?F = _ /\ _ =>
      let v := eval vm_compute in F in
      lazymatch v with
      | Some (?pre, EvPlaceOrder ?c ?sym ?sd ?ps ?q (Err ?e), ?post) =>
          exists pre, c, sym, sd, ps, q, e, post;
          assert (H : F = Some (pre, EvPlaceOrder c sym sd ps q (Err e), post))
            by (vm_compute; reflexivity)
      end
  end.
  split; [exact H|].
  exact (open_opposite_positions_cleanup hedge_world default_calculator "BTCUSDT" 10 0
           ltac:(discriminate) _ _ _ _ _ _ _ _ H).
Defined.
